(** * sshagent/trezor/client.py: identity codec, key path, SSH blob, signatures

    A shallow embedding of [src/sshagent/trezor/client.py] and the
    properties of its identity codec, key-path derivation, challenge-blob
    parser, signature post-processing and the two signing flows.

    The module is Python 2 code: [formats.hashfunc] is applied to the [str]
    returned by [time.strftime], and [result.signature[0]] is compared with
    the one-character string [b'\x00'].  Byte strings are modelled as
    [list byte], text as [list ascii]. *)

From Stdlib Require Import List ZArith Ascii String Bool Lia.
From Stdlib.Strings Require Import Byte.
Import ListNotations.

Open Scope Z_scope.

(** ** Exceptions and results *)

Definition text := list ascii.
Definition bytes := list byte.

Definition str (s : string) : text := list_ascii_of_string s.

(** The exceptions the module can raise.  [FrameError] is what the framing
    helpers of [util] raise when a read runs past the end of the buffer,
    [External] stands for whatever an external collaborator raises. *)
Inductive exn : Type :=
| AssertionError
| KeyError (key : string)
| AttributeError
| FrameError
| StructError
| UnicodeError
| BadSignatureError
| TypeError
| IndexError
| External (tag : nat).

Inductive result (A : Type) : Type :=
| Ok (a : A)
| Raise (e : exn).
Arguments Ok {A} a.
Arguments Raise {A} e.

Definition rbind {A B} (r : result A) (f : A -> result B) : result B :=
  match r with
  | Ok a => f a
  | Raise e => Raise e
  end.

Definition assert (b : bool) : result unit :=
  if b then Ok tt else Raise AssertionError.

Declare Scope result_scope.
Delimit Scope result_scope with result.
Notation "x <- c ;; k" := (rbind c (fun x => k))
  (at level 61, c at next level, right associativity) : result_scope.
Notation "c ;;; k" := (rbind c (fun _ => k))
  (at level 61, right associativity) : result_scope.

(** ** A backtracking matcher for the regular expressions of [re]

    [run r pos s c K] matches [r] at the head of [s] the way the
    backtracking engine of [re] does: the alternatives are tried in the
    engine's order (a greedy repetition the longest run first, a lazy one
    the shortest first, an optional part before its omission), each one is
    handed to the continuation [K] with the matched text, the remaining
    input and the groups captured so far, and the first alternative that
    the continuation accepts is the answer. *)
Module Re.

(** One-character matchers: a literal, [.] and [\w]. *)
Inductive cls : Type :=
| CChar (c : ascii)
| CDot
| CWord.

Definition in_range (lo hi c : ascii) : bool :=
  ((nat_of_ascii lo <=? nat_of_ascii c) && (nat_of_ascii c <=? nat_of_ascii hi))%nat.

(** [\w] without flags: [[a-zA-Z0-9_]]. *)
Definition is_word (c : ascii) : bool :=
  in_range "a" "z" c || in_range "A" "Z" c || in_range "0" "9" c
  || Ascii.eqb c "_".

Definition newline : ascii := "010".

Definition cls_match (k : cls) (c : ascii) : bool :=
  match k with
  | CChar d => Ascii.eqb c d
  | CDot => negb (Ascii.eqb c newline)
  | CWord => is_word c
  end.

Inductive regex : Type :=
| Bol                                 (* ^ *)
| Eol                                 (* $ *)
| Lit (s : text)                      (* a literal string *)
| Star (k : cls)                      (* k*  (greedy) *)
| StarLazy (k : cls)                  (* k*? *)
| Seq (r1 r2 : regex)
| Opt (r : regex)                     (* r?  (greedy) *)
| Group (name : string) (r : regex).  (* (?P<name>r) *)

Definition caps := list (string * text).

Fixpoint lookup (n : string) (c : caps) : option text :=
  match c with
  | [] => None
  | (m, v) :: c' => if String.eqb n m then Some v else lookup n c'
  end.

Fixpoint strip_prefix (p s : text) : option text :=
  match p, s with
  | [], _ => Some s
  | a :: p', b :: s' => if Ascii.eqb a b then strip_prefix p' s' else None
  | _ :: _, [] => None
  end.

(** [$] matches at the end of the string and just before a final newline. *)
Definition at_eol (s : text) : bool :=
  match s with
  | [] => true
  | [c] => Ascii.eqb c newline
  | _ => false
  end.

Section Run.

Context {X : Type}.

(** [k*]: the longest run of [k]-characters first, then shorter ones. *)
Fixpoint star_greedy (k : cls) (s : text) (K : text -> text -> option X)
  : option X :=
  match s with
  | c :: s' =>
      if cls_match k c
      then match star_greedy k s' (fun m rest => K (c :: m) rest) with
           | Some v => Some v
           | None => K [] s
           end
      else K [] s
  | [] => K [] []
  end.

(** [k*?]: the empty run first, then longer ones. *)
Fixpoint star_lazy (k : cls) (s : text) (K : text -> text -> option X)
  : option X :=
  match K [] s with
  | Some v => Some v
  | None =>
      match s with
      | c :: s' =>
          if cls_match k c
          then star_lazy k s' (fun m rest => K (c :: m) rest)
          else None
      | [] => None
      end
  end.

Fixpoint run (r : regex) (pos : nat) (s : text) (c : caps)
    (K : text -> text -> caps -> option X) : option X :=
  match r with
  | Bol => if Nat.eqb pos 0 then K [] s c else None
  | Eol => if at_eol s then K [] s c else None
  | Lit p =>
      match strip_prefix p s with
      | Some s' => K p s' c
      | None => None
      end
  | Star k => star_greedy k s (fun m rest => K m rest c)
  | StarLazy k => star_lazy k s (fun m rest => K m rest c)
  | Seq r1 r2 =>
      run r1 pos s c
        (fun m1 s1 c1 =>
           run r2 (pos + List.length m1) s1 c1
             (fun m2 s2 c2 => K (m1 ++ m2) s2 c2))
  | Opt r1 =>
      match run r1 pos s c K with
      | Some v => Some v
      | None => K [] s c
      end
  | Group n r1 => run r1 pos s c (fun m s' c' => K m s' ((n, m) :: c'))
  end.

End Run.

(** [re.match]: the first match at the start of the string, if any.  The
    match object is represented by its captured groups. *)
Definition match_ (r : regex) (s : text) : option caps :=
  run r 0 s [] (fun _ _ c => Some c).

End Re.

(** ** Identities

    [identity_type] comes from the device library: a message with optional
    string fields and an unsigned 32-bit [index], where a field that was not
    set reads as its default (the empty string, 0). *)
Record Identity : Type := mkIdentity {
  proto_f : option text;
  user_f : option text;
  host_f : option text;
  port_f : option text;
  path_f : option text;
  index : Z }.

Definition field (f : option text) : text :=
  match f with
  | Some v => v
  | None => []
  end.

Definition proto (i : Identity) : text := field (proto_f i).
Definition user (i : Identity) : text := field (user_f i).
Definition host (i : Identity) : text := field (host_f i).
Definition port (i : Identity) : text := field (port_f i).
Definition path (i : Identity) : text := field (path_f i).

(** Truth value of a Python string or byte string. *)
Definition truthy {A : Type} (s : list A) : bool :=
  match s with
  | [] => false
  | _ :: _ => true
  end.

Import Re.

(** The pieces of the pattern, one per line of the source. *)
Definition re_proto : regex :=
  Opt (Seq (Group "proto" (Star CDot)) (Lit (str "://"))).
Definition re_user : regex :=
  Opt (Seq (Group "user" (Star CDot)) (Lit (str "@"))).
Definition re_host : regex := Group "host" (StarLazy CDot).
Definition re_port : regex :=
  Opt (Seq (Lit (str ":")) (Group "port" (Star CWord))).
Definition re_path : regex :=
  Opt (Group "path" (Seq (Lit (str "/")) (Star CDot))).

Definition _identity_regexp : regex :=
  Seq Bol
 (Seq re_proto
 (Seq re_user
 (Seq re_host
 (Seq re_port
 (Seq re_path
      Eol))))).

(** One entry of [{k: v for k, v in result.items() if v}]: a group that did
    not take part in the match ([None]) or matched the empty string is left
    out. *)
Definition kwarg (c : caps) (name : string) : option text :=
  match lookup name c with
  | Some v => if truthy v then Some v else None
  | None => None
  end.

(** The identity built from the keyword arguments that are left. *)
Definition identity_type (c : caps) : Identity :=
  {| proto_f := kwarg c "proto";
     user_f := kwarg c "user";
     host_f := kwarg c "host";
     port_f := kwarg c "port";
     path_f := kwarg c "path";
     index := 0 |}.

Definition _string_to_identity (s : text) : result Identity :=
  match match_ _identity_regexp s with
  | None => Raise AttributeError          (* m is None: m.groupdict() *)
  | Some c => Ok (identity_type c)
  end.

Definition _identity_to_string (identity : Identity) : text :=
  (if truthy (proto identity) then proto identity ++ str "://" else [])
  ++ (if truthy (user identity) then user identity ++ str "@" else [])
  ++ host identity
  ++ (if truthy (port identity) then str ":" ++ port identity else [])
  ++ (if truthy (path identity) then path identity else []).

(** ** Byte strings, streams and the helpers of [util] *)

Definition byte_val (b : byte) : Z := Z.of_N (Byte.to_N b).

Definition text_eqb (a b : text) : bool :=
  if list_eq_dec ascii_dec a b then true else false.

Definition bytes_eqb (a b : bytes) : bool :=
  if list_eq_dec byte_eq_dec a b then true else false.

(** A Python 2 [str] read as the byte string it is. *)
Definition raw (s : text) : bytes := map byte_of_ascii s.

(** [io.BytesIO]: the stream is the part of the buffer not read yet. *)
Definition stream := bytes.

(** [i.read(n)]: up to [n] bytes, fewer at the end of the buffer. *)
Definition read (n : nat) (i : stream) : bytes * stream :=
  (firstn n i, skipn n i).

(** [i.read()]: everything that is left. *)
Definition read_all (i : stream) : bytes * stream := (i, []).

Module util.

(** Modelled from the spec: [util.bytes2num], which is defined outside
    [client.py]; the bytes are read as one big-endian unsigned integer. *)
Definition bytes2num (s : bytes) : Z :=
  fold_left (fun acc b => acc * 256 + byte_val b) s 0.

(** Modelled from the spec: [util.recv] with a byte count, which is defined
    outside [client.py]; it returns exactly [n] bytes of the stream and
    fails when the read runs past the end of the buffer. *)
Definition recv (n : nat) (i : stream) : result (bytes * stream) :=
  if (n <=? List.length i)%nat then Ok (read n i) else Raise FrameError.

(** A little-endian unsigned integer, as [struct] reads an [L] under [<]. *)
Definition le2num (s : bytes) : Z :=
  fold_right (fun b acc => byte_val b + 256 * acc) 0 s.

(** Modelled from the spec: [util.recv] with the format [<LLLL], which is
    defined outside [client.py]; 16 bytes are read and interpreted as four
    little-endian unsigned 32-bit integers. *)
Definition recv_LLLL (i : stream) : result (list Z * stream) :=
  (bi <- recv 16 i ;;
   let b := fst bi in
   Ok ([le2num (firstn 4 b);
        le2num (firstn 4 (skipn 4 b));
        le2num (firstn 4 (skipn 8 b));
        le2num (firstn 4 (skipn 12 b))], snd bi))%result.

(** Modelled from the spec: [util.read_frame], which is defined outside
    [client.py]; a frame is a 4-byte big-endian length followed by that many
    bytes. *)
Definition read_frame (i : stream) : result (bytes * stream) :=
  (hi <- recv 4 i ;;
   recv (Z.to_nat (bytes2num (fst hi))) (snd hi))%result.

End util.

(** ** Collaborators: [formats], [bitcoin] and the device *)

Inductive ecdsa_curve : Type := SECP256k1 | NIST256p.

(** What [formats.parse_pubkey] returns: the encoded key and its
    fingerprint. *)
Record PubKey : Type := mkPubKey {
  blob : bytes;
  fingerprint : text }.

Module formats.
(** The functions of [formats] the module calls.  [hashfunc m] stands for
    [formats.hashfunc(m).digest()]; [verify_digest] is the method of the
    verifying key, which returns on a good signature and raises
    [BadSignatureError] on a bad one. *)
Record t (VerifyingKey : Type) : Type := mk {
  hashfunc : bytes -> bytes;
  parse_pubkey : bytes -> result PubKey;
  decompress_pubkey : bytes -> option ecdsa_curve -> result VerifyingKey;
  serialize_verifying_key : VerifyingKey -> result bytes;
  export_public_key : bytes -> text -> result text;
  verify_digest : VerifyingKey -> Z * Z -> bytes -> result unit }.
Arguments hashfunc {VerifyingKey} _ _.
Arguments parse_pubkey {VerifyingKey} _ _.
Arguments decompress_pubkey {VerifyingKey} _ _ _.
Arguments serialize_verifying_key {VerifyingKey} _ _.
Arguments export_public_key {VerifyingKey} _ _ _.
Arguments verify_digest {VerifyingKey} _ _ _ _.
End formats.

Module bitcoin.
Record t : Type := mk {
  pubkey_to_address : bytes -> result text;
  electrum_sig_hash : bytes -> bytes }.
End bitcoin.

(** What the device answers to [sign_identity]. *)
Record SignedIdentity : Type := mkSignedIdentity {
  public_key : bytes;
  signature : bytes;
  address : text }.

(** The requests sent to the device. *)
Inductive request : Type :=
| GetPublicNode (n : list Z) (ecdsa_curve_name : option text)
| SignIdentity (identity : Identity) (challenge_hidden : bytes)
               (challenge_visual : text) (ecdsa_curve_name : option text)
| GetAddress (n : list Z) (coin_name : text) (show_display : bool).

Definition is_sign_request (q : request) : bool :=
  match q with
  | SignIdentity _ _ _ _ => true
  | _ => false
  end.

Module device.
(** The device: what it answers to a request, given the requests it has
    seen before.  [get_public_node] answers with [node.node.public_key]. *)
Record t : Type := mk {
  get_public_node : list request -> list Z -> option text -> result bytes;
  sign_identity :
    list request -> Identity -> bytes -> text -> option text ->
    result SignedIdentity;
  get_address : list request -> list Z -> text -> bool -> result unit }.
End device.

(** A computation that talks to the device: it may raise, and it extends the
    list of requests sent so far (also when it raises). *)
Definition io (A : Type) : Type := list request -> result A * list request.

Definition ret {A} (a : A) : io A := fun log => (Ok a, log).

Definition lift {A} (r : result A) : io A := fun log => (r, log).

Definition bind {A B} (m : io A) (f : A -> io B) : io B :=
  fun log =>
    match m log with
    | (Ok a, log') => f a log'
    | (Raise e, log') => (Raise e, log')
    end.

Definition send {A} (q : request) (answer : list request -> result A) : io A :=
  fun log => (answer log, log ++ [q]).

Declare Scope io_scope.
Delimit Scope io_scope with io.
Notation "x <- c ;; k" := (bind c (fun x => k))
  (at level 61, c at next level, right associativity) : io_scope.
Notation "c ;;; k" := (bind c (fun _ => k))
  (at level 61, right associativity) : io_scope.

(** ** Dictionaries of the parsed challenge *)

Inductive value : Type :=
| VBytes (b : bytes)
| VKey (k : PubKey).

Definition dict := list (string * value).

Fixpoint getitem (k : string) (d : dict) : result value :=
  match d with
  | [] => Raise (KeyError k)
  | (k', v) :: d' => if String.eqb k k' then Ok v else getitem k d'
  end.

Fixpoint setitem (k : string) (v : value) (d : dict) : dict :=
  match d with
  | [] => [(k, v)]
  | (k', v') :: d' =>
      if String.eqb k k' then (k, v) :: d' else (k', v') :: setitem k v d'
  end.

(** [msg['public_key']['blob']]. *)
Definition key_blob (v : value) : result bytes :=
  match v with
  | VKey k => Ok (blob k)
  | VBytes _ => Raise TypeError
  end.

(** ** The functions of the module *)

Definition parse_signature (blob : bytes) : Z * Z :=
  let sig := skipn 1 blob in
  let r := util.bytes2num (firstn 32 sig) in
  let s := util.bytes2num (skipn 32 sig) in
  (r, s).

(** The byte of value [n mod 256]. *)
Definition byte_of_Z (n : Z) : byte :=
  match Byte.of_N (Z.to_N (n mod 256)) with
  | Some b => b
  | None => x00
  end.

(** [struct.pack('<L', n)]: the four bytes of [n], lowest first; an [n]
    that is not an unsigned 32-bit integer is refused. *)
Definition pack_L (n : Z) : result bytes :=
  if (0 <=? n) && (n <? 2 ^ 32)
  then Ok [byte_of_Z n; byte_of_Z (n / 2 ^ 8);
           byte_of_Z (n / 2 ^ 16); byte_of_Z (n / 2 ^ 24)]
  else Raise StructError.

(** [s.encode('ascii')]: refused when a character is not ASCII. *)
Definition encode_ascii (s : text) : result bytes :=
  if forallb (fun c => (nat_of_ascii c <? 128)%nat) s
  then Ok (raw s)
  else Raise UnicodeError.

Definition hardened : Z := 0x80000000.

Section Functions.

Context {VerifyingKey : Type}.
Variable fmt : formats.t VerifyingKey.
Variable btc : bitcoin.t.

Definition message_digest (hidden visual : bytes) : bytes :=
  let hidden_digest := formats.hashfunc fmt hidden in
  let visual_digest := formats.hashfunc fmt visual in
  bitcoin.electrum_sig_hash btc (hidden_digest ++ visual_digest).

Definition _get_address (identity : Identity) : result (list Z) :=
  (index <- pack_L (index identity) ;;
   label <- encode_ascii (_identity_to_string identity) ;;
   let addr := index ++ label in
   let digest := formats.hashfunc fmt addr in
   let s := digest in
   values <- util.recv_LLLL s ;;
   let address_n := 13 :: fst values in
   Ok (map (fun value => Z.lor hardened value) address_n))%result.

Definition _parse_ssh_blob (data : bytes) : result dict :=
  let res : dict := [] in
  match data with
  | [] => Ok res
  | _ :: _ =>
      (let i := data in
       f <- util.read_frame i ;;
       let res := setitem "nonce" (VBytes (fst f)) res in
       let i := snd (read 1 (snd f)) in
       f <- util.read_frame i ;;
       let res := setitem "user" (VBytes (fst f)) res in
       f <- util.read_frame (snd f) ;;
       let res := setitem "conn" (VBytes (fst f)) res in
       f <- util.read_frame (snd f) ;;
       let res := setitem "auth" (VBytes (fst f)) res in
       let i := snd (read 1 (snd f)) in
       f <- util.read_frame i ;;
       let res := setitem "key_type" (VBytes (fst f)) res in
       f <- util.read_frame (snd f) ;;
       let public_key := fst f in
       k <- formats.parse_pubkey fmt public_key ;;
       let res := setitem "public_key" (VKey k) res in
       assert (negb (truthy (fst (read_all (snd f))))) ;;;
       Ok res)%result
  end.

Definition _validate_signature (result_ : SignedIdentity) (digest : bytes)
    (curve : ecdsa_curve) : result Z :=
  (verifying_key <-
     formats.decompress_pubkey fmt (public_key result_) (Some curve) ;;
   let signature := parse_signature (signature result_) in
   match formats.verify_digest fmt verifying_key signature digest with
   | Raise BadSignatureError => Ok 1
   | Raise e => Raise e
   | Ok _ => Ok 0
   end)%result.

End Functions.

Module Client.

Definition curve_name : text := str "nist256p1".

Section Methods.

Context {VerifyingKey : Type}.
Variable fmt : formats.t VerifyingKey.
Variable btc : bitcoin.t.
Variable client : device.t.

Definition set_proto (identity : Identity) (protocol : text) : Identity :=
  {| proto_f := Some protocol;
     user_f := user_f identity;
     host_f := host_f identity;
     port_f := port_f identity;
     path_f := path_f identity;
     index := index identity |}.

Definition get_identity (label : text) (protocol : option text)
  : result Identity :=
  (identity <- _string_to_identity label ;;
   Ok (match protocol with
       | Some p => set_proto identity p
       | None => identity
       end))%result.

Definition get_public_key (identity : Identity) : io text :=
  (lift (assert (text_eqb (proto identity) (str "ssh"))) ;;;
   let label := _identity_to_string identity in
   addr <- lift (_get_address fmt identity) ;;
   pubkey <- send (GetPublicNode addr (Some curve_name))
               (fun log => device.get_public_node client log addr
                             (Some curve_name)) ;;
   lift (formats.export_public_key fmt pubkey label))%io.

(** [s[0]] *)
Definition first_byte (s : bytes) : result byte :=
  match s with
  | b :: _ => Ok b
  | [] => Raise IndexError
  end.

Definition sign_ssh_challenge (identity : Identity) (blob_ : bytes)
  : io (Z * Z) :=
  (lift (assert (text_eqb (proto identity) (str "ssh"))) ;;;
   let label := _identity_to_string identity in
   msg <- lift (_parse_ssh_blob fmt blob_) ;;
   (* the arguments of log.info: msg['user'], label *)
   lift (getitem "user" msg) ;;;
   let visual := path identity in
   result_ <- send (SignIdentity identity blob_ visual (Some curve_name))
                (fun log => device.sign_identity client log identity blob_
                              visual (Some curve_name)) ;;
   verifying_key <-
     lift (formats.decompress_pubkey fmt (public_key result_) None) ;;
   public_key_blob <-
     lift (formats.serialize_verifying_key fmt verifying_key) ;;
   claimed <- lift (rbind (getitem "public_key" msg) key_blob) ;;
   lift (assert (bytes_eqb public_key_blob claimed)) ;;;
   lift (assert (Nat.eqb (List.length (signature result_)) 65)) ;;;
   marker <- lift (first_byte (signature result_)) ;;
   lift (assert (Byte.eqb marker x00)) ;;;
   ret (parse_signature (signature result_)))%io.

Definition sign_identity (label : text) (expected_address : option text)
    (_strftime : text -> text) (_urandom : nat -> bytes) : io Z :=
  (let visual := _strftime (str "%d/%m/%y %H:%M:%S") in
   let hidden := _urandom 64%nat in
   identity <- lift (get_identity label None) ;;
   derivation_path <- lift (_get_address fmt identity) ;;
   node <- send (GetPublicNode derivation_path None)
             (fun log => device.get_public_node client log derivation_path
                           None) ;;
   address_ <- lift (bitcoin.pubkey_to_address btc node) ;;
   match expected_address with
   | None =>
       send (GetAddress derivation_path (str "Bitcoin") true)
         (fun log => device.get_address client log derivation_path
                       (str "Bitcoin") true) ;;;
       ret 2
   | Some expected =>
       lift (assert (text_eqb expected address_)) ;;;
       result_ <- send (SignIdentity identity hidden visual None)
                    (fun log => device.sign_identity client log identity
                                  hidden visual None) ;;
       lift (assert (text_eqb address_ (address result_))) ;;;
       lift (assert (bytes_eqb node (public_key result_))) ;;;
       let digest := message_digest fmt btc hidden (raw visual) in
       lift (_validate_signature fmt result_ digest SECP256k1)
   end)%io.

End Methods.
End Client.

(** ** Reference notions the properties are stated with *)

(** The big-endian value of a byte string, position by position. *)
Fixpoint be_value (s : bytes) : Z :=
  match s with
  | [] => 0
  | b :: s' => byte_val b * 256 ^ Z.of_nat (List.length s') + be_value s'
  end.

(** Bytes [a .. a+n-1] of [s]. *)
Definition slice (a n : nat) (s : bytes) : bytes := firstn n (skipn a s).

(** The unsigned 32-bit little-endian word at offset [k] of [d]. *)
Definition le_word (d : bytes) (k : nat) : Z :=
  byte_val (nth k d x00)
  + 2 ^ 8 * byte_val (nth (k + 1) d x00)
  + 2 ^ 16 * byte_val (nth (k + 2) d x00)
  + 2 ^ 24 * byte_val (nth (k + 3) d x00).

Definition is_ascii (c : ascii) : Prop := (nat_of_ascii c < 128)%nat.

(** A frame: the 4-byte big-endian length of the payload, then the payload. *)
Definition be4 (n : Z) : bytes :=
  [byte_of_Z (n / 2 ^ 24); byte_of_Z (n / 2 ^ 16); byte_of_Z (n / 2 ^ 8);
   byte_of_Z n].

Definition frame (p : bytes) : bytes := be4 (Z.of_nat (List.length p)) ++ p.

Definition fits (p : bytes) : Prop := Z.of_nat (List.length p) < 2 ^ 32.

(** The challenge blob with the given fields and reserved bytes. *)
Definition challenge (nonce : bytes) (m1 : byte) (user conn auth : bytes)
    (m2 : byte) (key_type pk : bytes) : bytes :=
  frame nonce ++ [m1] ++ frame user ++ frame conn ++ frame auth
  ++ [m2] ++ frame key_type ++ frame pk.

(** *** Identity strings by their components *)

Definition is_delimiter (c : ascii) : bool :=
  Ascii.eqb c ":" || Ascii.eqb c "/" || Ascii.eqb c "@".

(** A character of a protocol, user or host name: no delimiter, no line
    feed. *)
Definition plain (c : ascii) : bool :=
  negb (is_delimiter c) && negb (Ascii.eqb c newline).

(** A character of a path after its leading [/]: a further [/] is allowed. *)
Definition path_char (c : ascii) : bool :=
  negb (Ascii.eqb c ":") && negb (Ascii.eqb c "@")
  && negb (Ascii.eqb c newline).

Record parts : Type := mkParts {
  p_proto : option text;
  p_user : option text;
  p_host : text;
  p_port : option text;
  p_path : option text }.

(** An optional component is left out or is a non-empty run of allowed
    characters. *)
Definition present (ok : ascii -> bool) (f : option text) : bool :=
  match f with
  | Some v => truthy v && forallb ok v
  | None => true
  end.

Definition valid_path (f : option text) : bool :=
  match f with
  | Some [] => false
  | Some (c :: rest) => Ascii.eqb c "/" && forallb path_char rest
  | None => true
  end.

Definition valid (p : parts) : bool :=
  present plain (p_proto p) && present plain (p_user p)
  && forallb plain (p_host p)
  && present is_word (p_port p) && valid_path (p_path p).

Definition tail_path (path_ : option text) : text :=
  match path_ with
  | Some t => t
  | None => []
  end.

Definition tail_port (port_ path_ : option text) : text :=
  match port_ with
  | Some o => str ":" ++ o ++ tail_path path_
  | None => tail_path path_
  end.

Definition tail_user (user_ : option text) (rest : text) : text :=
  match user_ with
  | Some u => u ++ str "@" ++ rest
  | None => rest
  end.

Definition tail_proto (proto_ : option text) (rest : text) : text :=
  match proto_ with
  | Some p => p ++ str "://" ++ rest
  | None => rest
  end.

(** The string [[proto://][user@]host[:port][/path]] of the components. *)
Definition render (p : parts) : text :=
  tail_proto (p_proto p)
    (tail_user (p_user p) (p_host p ++ tail_port (p_port p) (p_path p))).

Definition captured (name : string) (f : option text) (c : caps) : caps :=
  match f with
  | Some v => (name, v) :: c
  | None => c
  end.

(** The groups of the match of [render p], the last one captured first. *)
Definition groups (p : parts) : caps :=
  captured "path" (p_path p)
    (captured "port" (p_port p)
       (("host"%string, p_host p)
          :: captured "user" (p_user p) (captured "proto" (p_proto p) []))).

Definition identity_of (p : parts) : Identity :=
  {| proto_f := p_proto p;
     user_f := p_user p;
     host_f := if truthy (p_host p) then Some (p_host p) else None;
     port_f := p_port p;
     path_f := p_path p;
     index := 0 |}.

(** No occurrence of [://] in [x]. *)
Definition clean (x : text) : Prop :=
  forall y z, x = y ++ z -> strip_prefix (str "://") z = None.

(** A line feed of [s] other than its last character. *)
Definition inner_newline (s : text) : Prop :=
  exists y z, s = y ++ newline :: z /\ z <> [].

(** A pattern whose literals and characters never match a line feed. *)
Fixpoint one_line (r : regex) : bool :=
  match r with
  | Bol | Eol => true
  | Lit p => forallb (fun c => negb (Ascii.eqb c newline)) p
  | Star k | StarLazy k =>
      match k with
      | CChar c => negb (Ascii.eqb c newline)
      | CDot | CWord => true
      end
  | Seq r1 r2 => one_line r1 && one_line r2
  | Opt r1 => one_line r1
  | Group _ r1 => one_line r1
  end.

(** A one-line pattern that ends with [$]. *)
Fixpoint closed (r : regex) : bool :=
  match r with
  | Eol => true
  | Seq r1 r2 => one_line r1 && closed r2
  | _ => false
  end.

(** *** What the parser keeps of a match *)

(** A group that matched the empty string is left out of the identity. *)
Definition kept_part (f : option text) : option text :=
  match f with
  | Some [] => None
  | _ => f
  end.

Definition kept (p : parts) : parts :=
  {| p_proto := kept_part (p_proto p);
     p_user := kept_part (p_user p);
     p_host := p_host p;
     p_port := kept_part (p_port p);
     p_path := kept_part (p_path p) |}.

(** A continuation that accepts every match and answers with its groups,
    as the one of [match_] does. *)
Definition accepting (K : text -> text -> caps -> option caps) : Prop :=
  forall m s c, K m s c = Some c.

(** The components with the protocol replaced. *)
Definition with_proto (p : parts) (protocol : text) : parts :=
  {| p_proto := Some protocol;
     p_user := p_user p;
     p_host := p_host p;
     p_port := p_port p;
     p_path := p_path p |}.

(** What the pattern guarantees about the text of a port and of a path. *)
Definition port_shape (f : option text) : bool :=
  match f with
  | Some o => forallb is_word o
  | None => true
  end.

Definition path_shape (f : option text) : bool :=
  match f with
  | Some (c :: rest) => Ascii.eqb c "/" && forallb (cls_match CDot) rest
  | Some [] => false
  | None => true
  end.

Definition dot_shape (f : option text) : bool :=
  match f with
  | Some v => forallb (cls_match CDot) v
  | None => true
  end.

(** The steps of [sign_identity] up to the signing request: an expected
    address was given and is the address computed from the public node. *)
Definition reaches_signing {VerifyingKey : Type}
    (fmt : formats.t VerifyingKey) (btc : bitcoin.t) (client : device.t)
    (label : text) (expected_address : option text) (log : list request)
    (a : text) (identity : Identity) (n : list Z) (node : bytes) : Prop :=
  expected_address = Some a
  /\ Client.get_identity label None = Ok identity
  /\ _get_address fmt identity = Ok n
  /\ device.get_public_node client log n None = Ok node
  /\ bitcoin.pubkey_to_address btc node = Ok a.

(** The signing request of [sign_ssh_challenge]. *)
Definition ssh_request (identity : Identity) (blob_ : bytes) : request :=
  SignIdentity identity blob_ (path identity) (Some Client.curve_name).

(** ** Sample collaborators, used to run the functions on concrete inputs *)
Module Sample.

Definition zeros (n : nat) : bytes := repeat x00 n.

(** A stand-in digest of 32 bytes: the message, cut or zero-padded. *)
Definition digest32 (m : bytes) : bytes := firstn 32 (m ++ zeros 32).

Definition key : PubKey := {| blob := [x01; x02]; fingerprint := str "fp" |}.

(** Keys are their own encoding; a signature verifies when [r = s]. *)
Definition fmt : formats.t bytes :=
  formats.mk bytes
    digest32
    (fun b => Ok {| blob := b; fingerprint := str "fp" |})
    (fun b _ => Ok b)
    (fun k => Ok k)
    (fun _ label => Ok label)
    (fun _ sig _ =>
       if Z.eqb (fst sig) (snd sig) then Ok tt else Raise BadSignatureError).

Definition btc : bitcoin.t :=
  bitcoin.mk (fun _ => Ok (str "1addr")) digest32.

(** A device that answers every signing request with [signed]. *)
Definition dev (signed : SignedIdentity) : device.t :=
  device.mk (fun _ _ _ => Ok [x01; x02])
            (fun _ _ _ _ _ => Ok signed)
            (fun _ _ _ _ => Ok tt).

Definition alice : Identity :=
  {| proto_f := Some (str "ssh"); user_f := Some (str "alice");
     host_f := Some (str "example.com"); port_f := None;
     path_f := Some (str "/"); index := 0 |}.

Definition login : bytes :=
  challenge [x0a] x32 [x61] [x63] [x70] x01 [x6b] [x01; x02].

Definition good : SignedIdentity :=
  {| public_key := [x01; x02]; signature := zeros 65;
     address := str "1addr" |}.

Definition wrong_key : SignedIdentity :=
  {| public_key := [x03]; signature := zeros 65; address := str "1addr" |}.

Definition bad_sig : SignedIdentity :=
  {| public_key := [x01; x02]; signature := x00 :: x01 :: zeros 63;
     address := str "1addr" |}.

End Sample.

(** * Properties *)

(** ** Byte strings as numbers *)

Lemma byte_val_range (b : byte) : 0 <= byte_val b < 256.
Proof.
  unfold byte_val. pose proof (Byte.to_N_bounded b). lia.
Qed.

Lemma fold_bytes2num (s : bytes) (acc : Z) :
  fold_left (fun a b => a * 256 + byte_val b) s acc
  = acc * 256 ^ Z.of_nat (List.length s) + be_value s.
Proof.
  revert acc. induction s as [|b s IH]; intros acc; simpl fold_left.
  - simpl. lia.
  - rewrite IH. cbn [List.length be_value].
    rewrite Nat2Z.inj_succ, Z.pow_succ_r by lia. ring.
Qed.

Lemma bytes2num_be_value (s : bytes) : util.bytes2num s = be_value s.
Proof.
  unfold util.bytes2num. rewrite fold_bytes2num. lia.
Qed.

Lemma be_value_range (s : bytes) :
  0 <= be_value s < 256 ^ Z.of_nat (List.length s).
Proof.
  induction s as [|b s IH]; cbn [List.length be_value].
  - simpl. lia.
  - rewrite Nat2Z.inj_succ, Z.pow_succ_r by lia.
    pose proof (byte_val_range b).
    assert (0 < 256 ^ Z.of_nat (List.length s)) by (apply Z.pow_pos_nonneg; lia).
    nia.
Qed.

Lemma slice_length (a n : nat) (s : bytes) :
  (a + n <= List.length s)%nat -> List.length (slice a n s) = n.
Proof.
  intros H. unfold slice. rewrite length_firstn, length_skipn. lia.
Qed.

(** ** The signature processor *)

(** C8: on a 65-byte blob [parse_signature] drops byte 0 and returns the
    big-endian values of bytes 1..32 and of bytes 33..64, both below
    [2^256]. *)
Theorem parse_signature_extract (blob_ : bytes) :
  List.length blob_ = 65%nat ->
  parse_signature blob_
  = (be_value (slice 1 32 blob_), be_value (slice 33 32 blob_))
  /\ 0 <= fst (parse_signature blob_) < 2 ^ 256
  /\ 0 <= snd (parse_signature blob_) < 2 ^ 256.
Proof.
  intros Hlen.
  assert (Hs : skipn 32 (skipn 1 blob_) = slice 33 32 blob_).
  { unfold slice. rewrite skipn_skipn. simpl Nat.add.
    rewrite firstn_all2; [reflexivity|]. rewrite length_skipn. lia. }
  assert (E : parse_signature blob_
              = (be_value (slice 1 32 blob_), be_value (slice 33 32 blob_))).
  { unfold parse_signature. rewrite !bytes2num_be_value, Hs. reflexivity. }
  rewrite E. cbn [fst snd].
  pose proof (be_value_range (slice 1 32 blob_)) as H1.
  pose proof (be_value_range (slice 33 32 blob_)) as H2.
  rewrite slice_length in H1, H2 by lia.
  change (256 ^ Z.of_nat 32) with (2 ^ 256) in H1, H2.
  auto.
Qed.

Lemma parse_signature_extract_witness :
  parse_signature (Sample.zeros 65)
  = (be_value (slice 1 32 (Sample.zeros 65)),
     be_value (slice 33 32 (Sample.zeros 65)))
  /\ 0 <= fst (parse_signature (Sample.zeros 65)) < 2 ^ 256
  /\ 0 <= snd (parse_signature (Sample.zeros 65)) < 2 ^ 256.
Proof.
  apply (parse_signature_extract (Sample.zeros 65)). reflexivity.
Defined.

(** ** The key-path deriver *)

Lemma byte_val_of_Z (n : Z) : byte_val (byte_of_Z n) = n mod 256.
Proof.
  unfold byte_of_Z, byte_val.
  pose proof (Z.mod_pos_bound n 256 ltac:(lia)) as Hm.
  destruct (Byte.of_N (Z.to_N (n mod 256))) as [b|] eqn:E.
  - apply Byte.to_of_N in E. rewrite E. lia.
  - apply Byte.of_N_None_iff in E. lia.
Qed.

Lemma pack_L_ok (n : Z) :
  0 <= n < 2 ^ 32 ->
  exists ib, pack_L n = Ok ib /\ List.length ib = 4%nat /\ le_word ib 0 = n.
Proof.
  intros Hn. unfold pack_L.
  replace ((0 <=? n) && (n <? 2 ^ 32)) with true
    by (symmetry; apply andb_true_intro; split; [apply Z.leb_le|apply Z.ltb_lt]; lia).
  eexists; split; [reflexivity|]. split; [reflexivity|].
  unfold le_word. cbn [nth Nat.add]. rewrite !byte_val_of_Z.
  change (2 ^ 8) with 256. change (2 ^ 16) with (256 * 256).
  change (2 ^ 24) with (256 * 256 * 256).
  rewrite <- !Z.div_div by lia.
  assert (n / 256 / 256 / 256 < 256).
  { rewrite !Z.div_div by lia. apply Z.div_lt_upper_bound; lia. }
  assert (0 <= n / 256 / 256 / 256) by (repeat apply Z.div_pos; lia).
  rewrite (Z.mod_small (n / 256 / 256 / 256) 256) by lia.
  pose proof (Z.div_mod n 256 ltac:(lia)) as D0.
  pose proof (Z.div_mod (n / 256) 256 ltac:(lia)) as D1.
  pose proof (Z.div_mod (n / 256 / 256) 256 ltac:(lia)) as D2.
  lia.
Qed.

Lemma pack_L_out_of_range (n : Z) :
  n < 0 \/ 2 ^ 32 <= n -> pack_L n = Raise StructError.
Proof.
  intros Hn. unfold pack_L.
  replace ((0 <=? n) && (n <? 2 ^ 32)) with false; [reflexivity|].
  symmetry. apply andb_false_iff.
  destruct Hn; [left; apply Z.leb_gt|right; apply Z.ltb_ge]; lia.
Qed.

Lemma encode_ascii_ok (s : text) :
  Forall is_ascii s -> encode_ascii s = Ok (raw s).
Proof.
  intros H. unfold encode_ascii.
  replace (forallb (fun c => (nat_of_ascii c <? 128)%nat) s) with true;
    [reflexivity|].
  symmetry. apply forallb_forall. intros c Hc.
  rewrite Forall_forall in H. apply Nat.ltb_lt. exact (H c Hc).
Qed.

Lemma le2num_word (k : nat) (d : bytes) :
  (k + 4 <= List.length d)%nat ->
  util.le2num (firstn 4 (skipn k d)) = le_word d k.
Proof.
  revert d. induction k as [|k IH]; intros d Hd.
  - destruct d as [|a [|b [|c [|e d]]]]; cbn [List.length] in Hd; try lia.
    unfold le_word, util.le2num.
    cbn [skipn firstn fold_right nth Nat.add].
    change (2 ^ 8) with 256. change (2 ^ 16) with (256 * 256).
    change (2 ^ 24) with (256 * 256 * 256). ring.
  - destruct d as [|a d]; cbn [List.length] in Hd; [lia|].
    cbn [skipn]. rewrite IH by lia. reflexivity.
Qed.

Lemma recv_LLLL_ok (d : bytes) :
  (16 <= List.length d)%nat ->
  util.recv_LLLL d
  = Ok ([le_word d 0; le_word d 4; le_word d 8; le_word d 12], skipn 16 d).
Proof.
  intros Hd. unfold util.recv_LLLL, util.recv.
  replace (16 <=? List.length d)%nat with true
    by (symmetry; apply Nat.leb_le; lia).
  cbn [rbind read fst snd].
  assert (F : forall k, (k + 4 <= 16)%nat ->
            firstn 4 (skipn k (firstn 16 d)) = firstn 4 (skipn k d)).
  { intros k Hk. rewrite skipn_firstn_comm, firstn_firstn.
    f_equal. lia. }
  change (firstn 4 (firstn 16 d)) with (firstn 4 (skipn 0 (firstn 16 d))).
  rewrite !F by lia.
  rewrite !le2num_word by lia. reflexivity.
Qed.

Lemma le_word_range (d : bytes) (k : nat) : 0 <= le_word d k < 2 ^ 32.
Proof.
  unfold le_word.
  pose proof (byte_val_range (nth k d x00)).
  pose proof (byte_val_range (nth (k + 1) d x00)).
  pose proof (byte_val_range (nth (k + 2) d x00)).
  pose proof (byte_val_range (nth (k + 3) d x00)).
  lia.
Qed.

Lemma hardened_bit (v : Z) :
  0 <= v < 2 ^ 32 ->
  Z.testbit (Z.lor hardened v) 31 = true /\ 0 <= Z.lor hardened v < 2 ^ 32.
Proof.
  intros Hv. split.
  - rewrite Z.lor_spec. reflexivity.
  - split.
    + apply Z.lor_nonneg. unfold hardened. lia.
    + destruct (Z.eq_dec (Z.lor hardened v) 0) as [E|NE]; [rewrite E; lia|].
      apply Z.log2_lt_pow2.
      * assert (0 <= Z.lor hardened v) by (apply Z.lor_nonneg; unfold hardened; lia).
        lia.
      * rewrite Z.log2_lor by (unfold hardened; lia).
        apply Z.max_lub_lt; [reflexivity|].
        destruct (Z.eq_dec v 0) as [->|]; [reflexivity|].
        apply Z.log2_lt_pow2; lia.
Qed.

(** C1: the key path of an identity is [[13; w0; w1; w2; w3]] with bit 31 set
    in all five elements, where the [w]s are the first four little-endian
    32-bit words of the digest of the seed: the four little-endian bytes of
    the index followed by the ASCII bytes of the identity string. *)
Theorem get_address_path {VerifyingKey : Type}
    (fmt : formats.t VerifyingKey) (identity : Identity) :
  (forall m, (16 <= List.length (formats.hashfunc fmt m))%nat) ->
  0 <= index identity < 2 ^ 32 ->
  Forall is_ascii (_identity_to_string identity) ->
  exists ib : bytes,
    List.length ib = 4%nat /\ le_word ib 0 = index identity /\
    let d := formats.hashfunc fmt (ib ++ raw (_identity_to_string identity)) in
    let address_n :=
      [Z.lor 0x80000000 13;
       Z.lor 0x80000000 (le_word d 0); Z.lor 0x80000000 (le_word d 4);
       Z.lor 0x80000000 (le_word d 8); Z.lor 0x80000000 (le_word d 12)] in
    _get_address fmt identity = Ok address_n
    /\ Forall (fun v => Z.testbit v 31 = true /\ 0 <= v < 2 ^ 32) address_n.
Proof.
  intros Hhash Hidx Hascii.
  destruct (pack_L_ok (index identity) Hidx) as (ib & Hpack & Hlen & Hval).
  exists ib. split; [exact Hlen|]. split; [exact Hval|].
  cbv zeta. split.
  - unfold _get_address. rewrite Hpack. cbn [rbind].
    rewrite (encode_ascii_ok _ Hascii). cbn [rbind].
    rewrite recv_LLLL_ok by apply Hhash. reflexivity.
  - repeat constructor;
      try (apply (hardened_bit 13); lia);
      try (apply hardened_bit, le_word_range).
Qed.

Lemma get_address_path_witness :
  exists ib : bytes,
    List.length ib = 4%nat /\ le_word ib 0 = index Sample.alice /\
    let d := formats.hashfunc Sample.fmt
               (ib ++ raw (_identity_to_string Sample.alice)) in
    let address_n :=
      [Z.lor 0x80000000 13;
       Z.lor 0x80000000 (le_word d 0); Z.lor 0x80000000 (le_word d 4);
       Z.lor 0x80000000 (le_word d 8); Z.lor 0x80000000 (le_word d 12)] in
    _get_address Sample.fmt Sample.alice = Ok address_n
    /\ Forall (fun v => Z.testbit v 31 = true /\ 0 <= v < 2 ^ 32) address_n.
Proof.
  apply (get_address_path Sample.fmt Sample.alice).
  - intros m. unfold Sample.fmt, Sample.digest32, Sample.zeros.
    cbn [formats.hashfunc]. rewrite length_firstn, length_app, repeat_length.
    lia.
  - cbn. lia.
  - repeat constructor.
Defined.

(** The derivation refuses an identity string with a character outside
    ASCII, and an index that is not an unsigned 32-bit integer. *)
Lemma get_address_not_ascii {VerifyingKey : Type}
    (fmt : formats.t VerifyingKey) :
  _get_address fmt
    {| proto_f := None; user_f := None; host_f := Some ["233"%char];
       port_f := None; path_f := None; index := 0 |}
  = Raise UnicodeError.
Proof. reflexivity. Qed.

(** ** The SSH blob codec *)

Lemma bytes2num_be4 (n : Z) : 0 <= n < 2 ^ 32 -> util.bytes2num (be4 n) = n.
Proof.
  intros Hn. unfold util.bytes2num, be4. cbn [fold_left].
  rewrite !byte_val_of_Z.
  change (2 ^ 8) with 256. change (2 ^ 16) with (256 * 256).
  change (2 ^ 24) with (256 * 256 * 256).
  rewrite <- !Z.div_div by lia.
  assert (n / 256 / 256 / 256 < 256).
  { rewrite !Z.div_div by lia. apply Z.div_lt_upper_bound; lia. }
  assert (0 <= n / 256 / 256 / 256) by (repeat apply Z.div_pos; lia).
  rewrite (Z.mod_small (n / 256 / 256 / 256) 256) by lia.
  pose proof (Z.div_mod n 256 ltac:(lia)) as D0.
  pose proof (Z.div_mod (n / 256) 256 ltac:(lia)) as D1.
  pose proof (Z.div_mod (n / 256 / 256) 256 ltac:(lia)) as D2.
  lia.
Qed.

Lemma recv_app (a b : bytes) : util.recv (List.length a) (a ++ b) = Ok (a, b).
Proof.
  unfold util.recv, read.
  replace (List.length a <=? List.length (a ++ b))%nat with true
    by (symmetry; apply Nat.leb_le; rewrite length_app; lia).
  rewrite firstn_app, firstn_all, Nat.sub_diag, firstn_O, app_nil_r.
  rewrite skipn_app, skipn_all, Nat.sub_diag, skipn_O. reflexivity.
Qed.

Lemma recv_short (n : nat) (d : bytes) :
  (List.length d < n)%nat -> util.recv n d = Raise FrameError.
Proof.
  intros H. unfold util.recv.
  replace (n <=? List.length d)%nat with false
    by (symmetry; apply Nat.leb_gt; lia).
  reflexivity.
Qed.

Lemma read_frame_frame (p rest : bytes) :
  fits p -> util.read_frame (frame p ++ rest) = Ok (p, rest).
Proof.
  intros Hp. unfold util.read_frame, frame. rewrite <- app_assoc.
  change 4%nat with (List.length (be4 (Z.of_nat (List.length p)))).
  rewrite recv_app. cbn [rbind fst snd].
  rewrite bytes2num_be4 by (unfold fits in Hp; lia).
  rewrite Nat2Z.id. apply recv_app.
Qed.

(** A buffer that stops before the end of a frame makes the read fail; a
    buffer that holds the whole frame continues after it. *)
Lemma read_frame_prefix {A : Type} (k : bytes * stream -> result A)
    (p rest d t : bytes) :
  fits p -> frame p ++ rest = d ++ t -> t <> [] ->
  rbind (util.read_frame d) k = Raise FrameError
  \/ exists d', d = frame p ++ d' /\ rest = d' ++ t
                /\ rbind (util.read_frame d) k = k (p, d').
Proof.
  intros Hp E Ht.
  destruct (app_eq_app _ _ _ _ E) as (l & [[Ea Eb] | [Ea Eb]]).
  - (* the buffer stops inside the frame *)
    destruct l as [|x l].
    + right. exists []. rewrite app_nil_r in Ea. cbn [app] in Eb.
      subst. rewrite app_nil_r.
      split; [reflexivity|]. split; [reflexivity|].
      rewrite <- (app_nil_r (frame p)). rewrite read_frame_frame by assumption.
      reflexivity.
    + left. unfold frame in Ea.
      destruct (app_eq_app _ _ _ _ Ea) as (l' & [[Ec Ed] | [Ec Ed]]).
      * destruct l' as [|y l'].
        -- (* the length prefix is there, the payload is missing *)
           rewrite app_nil_r in Ec. subst d. cbn [app] in Ed.
           unfold util.read_frame.
           change 4%nat with (List.length (be4 (Z.of_nat (List.length p)))).
           rewrite <- (app_nil_r (be4 _)), recv_app. cbn [rbind fst snd].
           rewrite bytes2num_be4 by (unfold fits in Hp; lia).
           rewrite Nat2Z.id, recv_short; [reflexivity|].
           rewrite <- Ed. cbn [List.length]. lia.
        -- (* the length prefix is cut *)
           unfold util.read_frame. rewrite recv_short; [reflexivity|].
           assert (L : List.length (be4 (Z.of_nat (List.length p)))
                       = List.length (d ++ y :: l')) by (rewrite <- Ec; reflexivity).
           rewrite length_app in L. cbn [List.length be4] in L. lia.
      * (* the length prefix is there, the payload is cut *)
        subst d. unfold util.read_frame.
        change 4%nat with (List.length (be4 (Z.of_nat (List.length p)))).
        rewrite recv_app. cbn [rbind fst snd].
        rewrite bytes2num_be4 by (unfold fits in Hp; lia).
        rewrite Nat2Z.id, recv_short; [reflexivity|].
        rewrite Ed, length_app. cbn [List.length]. lia.
  - right. exists l. subst. split; [reflexivity|]. split; [reflexivity|].
    rewrite read_frame_frame by assumption. reflexivity.
Qed.

Lemma marker_prefix (m : byte) (rest d t : bytes) :
  m :: rest = d ++ t -> t <> [] ->
  d = [] \/ exists d', d = m :: d' /\ rest = d' ++ t.
Proof.
  intros E Ht. destruct d as [|x d]; [left; reflexivity|right].
  cbn [app] in E. injection E as -> ->. eauto.
Qed.

Lemma read_frame_nil : util.read_frame [] = Raise FrameError.
Proof. reflexivity. Qed.

Lemma frame_not_nil (p rest : bytes) : frame p ++ rest <> [].
Proof. unfold frame, be4. cbn. discriminate. Qed.

(** One step of the parser on a buffer [d] that is a proper prefix of a
    well-formed blob: the read fails, or it returns what the blob holds. *)
Ltac frame_step E Ht fitsp :=
  match goal with
  | |- rbind (util.read_frame ?d) ?k = _ =>
      let Hf := fresh "Hf" in let d' := fresh "d" in
      let E' := fresh "E" in
      destruct (read_frame_prefix k _ _ d _ fitsp E Ht)
        as [Hf | (d' & -> & E' & Hf)];
      [exact Hf | rewrite Hf; clear Hf; cbn [fst snd]]
  end.

Ltac marker_step E Ht :=
  let d' := fresh "d" in let E' := fresh "E" in
  destruct (marker_prefix _ _ _ _ E Ht) as [-> | (d' & -> & E')];
  [reflexivity | cbn [read snd skipn]].

Section Blob.

Context {VerifyingKey : Type}.
Variable fmt : formats.t VerifyingKey.
Variables nonce user_ conn auth key_type pk : bytes.
Variables m1 m2 : byte.
Hypothesis fits_nonce : fits nonce.
Hypothesis fits_user : fits user_.
Hypothesis fits_conn : fits conn.
Hypothesis fits_auth : fits auth.
Hypothesis fits_key_type : fits key_type.
Hypothesis fits_pk : fits pk.

Let w := challenge nonce m1 user_ conn auth m2 key_type pk.

Lemma parse_ssh_blob_ok (extra : bytes) :
  _parse_ssh_blob fmt (w ++ extra)
  = rbind (formats.parse_pubkey fmt pk)
      (fun k =>
         rbind (assert (negb (truthy extra)))
           (fun _ =>
              Ok [("nonce"%string, VBytes nonce);
                  ("user"%string, VBytes user_);
                  ("conn"%string, VBytes conn);
                  ("auth"%string, VBytes auth);
                  ("key_type"%string, VBytes key_type);
                  ("public_key"%string, VKey k)])).
Proof.
  unfold _parse_ssh_blob.
  destruct (w ++ extra) as [|b0 d0] eqn:E.
  { exfalso. unfold w, challenge in E. rewrite <- app_assoc in E.
    exact (frame_not_nil _ _ E). }
  rewrite <- E. clear E. unfold w, challenge.
  rewrite <- !app_assoc.
  rewrite read_frame_frame by assumption. cbn [rbind fst snd read app skipn].
  rewrite read_frame_frame by assumption. cbn [rbind fst snd read app skipn].
  rewrite read_frame_frame by assumption. cbn [rbind fst snd read app skipn].
  rewrite read_frame_frame by assumption. cbn [rbind fst snd read app skipn].
  rewrite read_frame_frame by assumption. cbn [rbind fst snd read app skipn].
  rewrite read_frame_frame by assumption. cbn [rbind fst snd read app skipn].
  reflexivity.
Qed.

Lemma parse_ssh_blob_truncated (d t : bytes) :
  d <> [] -> t <> [] -> w = d ++ t ->
  _parse_ssh_blob fmt d = Raise FrameError.
Proof.
  intros Hd Ht E. unfold _parse_ssh_blob.
  destruct d as [|b0 d0]; [contradiction|]. clear Hd.
  remember (b0 :: d0) as d eqn:Hdd. clear Hdd b0 d0.
  unfold w, challenge in E.
  frame_step E Ht fits_nonce.
  marker_step E0 Ht.
  frame_step E1 Ht fits_user.
  frame_step E2 Ht fits_conn.
  frame_step E3 Ht fits_auth.
  marker_step E4 Ht.
  frame_step E5 Ht fits_key_type.
  rewrite <- (app_nil_r (frame pk)) in E6.
  frame_step E6 Ht fits_pk.
  symmetry in E7. apply app_eq_nil in E7. destruct E7 as [_ ->].
  contradiction.
Qed.

End Blob.

(** C6: the empty blob parses to the empty dictionary: no key is present,
    and no error is raised. *)
Theorem parse_ssh_blob_empty {VerifyingKey : Type}
    (fmt : formats.t VerifyingKey) :
  _parse_ssh_blob fmt [] = Ok []
  /\ forall k : string,
       rbind (_parse_ssh_blob fmt []) (getitem k) = Raise (KeyError k).
Proof.
  split; [reflexivity|]. intros k. reflexivity.
Qed.

(** C5: for the blob [w] made of the six frames and the two reserved bytes,
    (1) every non-empty buffer that stops before the end of [w] is refused
    because a frame read runs past its end, (2) [w] followed by further
    bytes is refused, by the assertion on the bytes left once the key is
    parsed, and (3) [w] itself parses to its six fields once
    [formats.parse_pubkey] accepts the key, nothing being left over. *)
Theorem parse_ssh_blob_framing {VerifyingKey : Type}
    (fmt : formats.t VerifyingKey)
    (nonce : bytes) (m1 : byte) (user_ conn auth : bytes) (m2 : byte)
    (key_type pk : bytes) :
  fits nonce -> fits user_ -> fits conn -> fits auth -> fits key_type ->
  fits pk ->
  let w := challenge nonce m1 user_ conn auth m2 key_type pk in
  (forall d t : bytes,
      d <> [] -> t <> [] -> w = d ++ t ->
      _parse_ssh_blob fmt d = Raise FrameError)
  /\ (forall extra : bytes,
        extra <> [] ->
        exists e, _parse_ssh_blob fmt (w ++ extra) = Raise e
                  /\ (forall k, formats.parse_pubkey fmt pk = Ok k ->
                                e = AssertionError))
  /\ (forall k : PubKey,
        formats.parse_pubkey fmt pk = Ok k ->
        w <> []
        /\ _parse_ssh_blob fmt w
           = Ok [("nonce"%string, VBytes nonce);
                 ("user"%string, VBytes user_);
                 ("conn"%string, VBytes conn);
                 ("auth"%string, VBytes auth);
                 ("key_type"%string, VBytes key_type);
                 ("public_key"%string, VKey k)]).
Proof.
  intros Hn Hu Hc Ha Hk Hp w. split; [|split].
  - intros d t Hd Ht E.
    exact (parse_ssh_blob_truncated fmt nonce user_ conn auth key_type pk
             m1 m2 Hn Hu Hc Ha Hk Hp d t Hd Ht E).
  - intros extra Hx. subst w.
    rewrite (parse_ssh_blob_ok fmt nonce user_ conn auth key_type pk m1 m2)
      by assumption.
    destruct (formats.parse_pubkey fmt pk) as [k|e] eqn:E; cbn [rbind].
    + destruct extra as [|x extra]; [contradiction|]. cbn.
      exists AssertionError. split; [reflexivity|]. intros; reflexivity.
    + exists e. split; [reflexivity|]. intros k Hk'. discriminate Hk'.
  - intros k Hk'. split.
    + subst w. unfold challenge. apply frame_not_nil.
    + rewrite <- (app_nil_r w). subst w.
      rewrite (parse_ssh_blob_ok fmt nonce user_ conn auth key_type pk m1 m2)
        by assumption.
      rewrite Hk'. reflexivity.
Qed.

Lemma parse_ssh_blob_framing_witness :
  _parse_ssh_blob Sample.fmt (firstn 7 Sample.login) = Raise FrameError
  /\ _parse_ssh_blob Sample.fmt (Sample.login ++ [x00]) = Raise AssertionError
  /\ _parse_ssh_blob Sample.fmt Sample.login
     = Ok [("nonce"%string, VBytes [x0a]);
           ("user"%string, VBytes [x61]);
           ("conn"%string, VBytes [x63]);
           ("auth"%string, VBytes [x70]);
           ("key_type"%string, VBytes [x6b]);
           ("public_key"%string, VKey Sample.key)].
Proof.
  assert (F : forall p : bytes, (List.length p <= 2)%nat -> fits p).
  { intros p Hp. unfold fits. change (2 ^ 32) with 4294967296. lia. }
  pose proof (parse_ssh_blob_framing Sample.fmt
                [x0a] x32 [x61] [x63] [x70] x01 [x6b] [x01; x02]
                (F [x0a] ltac:(cbn; lia)) (F [x61] ltac:(cbn; lia))
                (F [x63] ltac:(cbn; lia)) (F [x70] ltac:(cbn; lia))
                (F [x6b] ltac:(cbn; lia)) (F [x01; x02] ltac:(cbn; lia)))
    as (Htrunc & Htrail & Hok).
  split; [|split].
  - apply (Htrunc (firstn 7 Sample.login) (skipn 7 Sample.login));
      [discriminate | discriminate | reflexivity].
  - destruct (Htrail [x00] ltac:(discriminate)) as (e & He & Hass).
    rewrite (Hass Sample.key eq_refl) in He. exact He.
  - exact (proj2 (Hok Sample.key eq_refl)).
Defined.

(** ** The session orchestrator *)

Lemma text_eqb_refl (a : text) : text_eqb a a = true.
Proof. unfold text_eqb. destruct (list_eq_dec ascii_dec a a); congruence. Qed.

Lemma bytes_eqb_refl (a : bytes) : bytes_eqb a a = true.
Proof. unfold bytes_eqb. destruct (list_eq_dec byte_eq_dec a a); congruence. Qed.

Lemma bytes_eqb_neq (a b : bytes) : a <> b -> bytes_eqb a b = false.
Proof. unfold bytes_eqb. destruct (list_eq_dec byte_eq_dec a b); congruence. Qed.

Lemma text_eqb_eq (a b : text) : text_eqb a b = true -> a = b.
Proof. unfold text_eqb. destruct (list_eq_dec ascii_dec a b); congruence. Qed.

Lemma bytes_eqb_eq (a b : bytes) : bytes_eqb a b = true -> a = b.
Proof. unfold bytes_eqb. destruct (list_eq_dec byte_eq_dec a b); congruence. Qed.

Lemma parse_signature_zeros : parse_signature (repeat x00 65) = (0, 0).
Proof. reflexivity. Qed.

Section SignSsh.

Context {VerifyingKey : Type}.
Variable fmt : formats.t VerifyingKey.
Variable client : device.t.
Variable identity : Identity.
Variable blob_ : bytes.
Variable log : list request.

(** The flow up to the answer of the device. *)
Variables (msg : dict) (u : value) (signed : SignedIdentity).
Hypothesis is_ssh : proto identity = str "ssh".
Hypothesis parsed : _parse_ssh_blob fmt blob_ = Ok msg.
Hypothesis has_user : getitem "user" msg = Ok u.
Hypothesis answered :
  device.sign_identity client log identity blob_ (path identity)
    (Some Client.curve_name) = Ok signed.

(** What is left of [sign_ssh_challenge] once the device has answered. *)
Lemma sign_ssh_challenge_answered :
  Client.sign_ssh_challenge fmt client identity blob_ log
  = ((verifying_key <-
        formats.decompress_pubkey fmt (public_key signed) None ;;
      public_key_blob <- formats.serialize_verifying_key fmt verifying_key ;;
      claimed <- rbind (getitem "public_key" msg) key_blob ;;
      assert (bytes_eqb public_key_blob claimed) ;;;
      assert (Nat.eqb (List.length (signature signed)) 65) ;;;
      marker <- Client.first_byte (signature signed) ;;
      assert (Byte.eqb marker x00) ;;;
      Ok (parse_signature (signature signed)))%result,
     log ++ [ssh_request identity blob_]).
Proof.
  unfold Client.sign_ssh_challenge, bind, lift, send, ret.
  rewrite is_ssh, text_eqb_refl. cbn [assert].
  rewrite parsed, has_user, answered.
  destruct (formats.decompress_pubkey fmt (public_key signed) None)
    as [vk|e]; cbn [rbind]; [|reflexivity].
  destruct (formats.serialize_verifying_key fmt vk)
    as [pkb|e]; cbn [rbind]; [|reflexivity].
  destruct (rbind (getitem "public_key" msg) key_blob)
    as [claimed|e]; cbn [rbind]; [|reflexivity].
  destruct (assert (bytes_eqb pkb claimed)); cbn [rbind]; [|reflexivity].
  destruct (assert (Nat.eqb (List.length (signature signed)) 65));
    cbn [rbind]; [|reflexivity].
  destruct (Client.first_byte (signature signed)) as [marker|e];
    cbn [rbind]; [|reflexivity].
  destruct (assert (Byte.eqb marker x00)); reflexivity.
Qed.

End SignSsh.

(** C3: when the key the device returns, once serialized, differs from the
    key blob the challenge claims, [sign_ssh_challenge] raises
    [AssertionError] after the signing request and returns no [(r, s)]. *)
Theorem sign_ssh_challenge_wrong_key {VerifyingKey : Type}
    (fmt : formats.t VerifyingKey) (client : device.t)
    (identity : Identity) (blob_ : bytes) (log : list request)
    (msg : dict) (u : value) (signed : SignedIdentity)
    (vk : VerifyingKey) (public_key_blob claimed : bytes) :
  proto identity = str "ssh" ->
  _parse_ssh_blob fmt blob_ = Ok msg ->
  getitem "user" msg = Ok u ->
  device.sign_identity client log identity blob_ (path identity)
    (Some Client.curve_name) = Ok signed ->
  formats.decompress_pubkey fmt (public_key signed) None = Ok vk ->
  formats.serialize_verifying_key fmt vk = Ok public_key_blob ->
  rbind (getitem "public_key" msg) key_blob = Ok claimed ->
  public_key_blob <> claimed ->
  Client.sign_ssh_challenge fmt client identity blob_ log
  = (Raise AssertionError, log ++ [ssh_request identity blob_])
  /\ forall rs log', Client.sign_ssh_challenge fmt client identity blob_ log
                     <> (Ok rs, log').
Proof.
  intros Hssh Hmsg Hu Hans Hvk Hpkb Hcl Hne.
  assert (E : Client.sign_ssh_challenge fmt client identity blob_ log
              = (Raise AssertionError, log ++ [ssh_request identity blob_])).
  { rewrite (sign_ssh_challenge_answered fmt client identity blob_ log
               msg u signed Hssh Hmsg Hu Hans).
    rewrite Hvk. cbn [rbind]. rewrite Hpkb. cbn [rbind].
    rewrite Hcl. cbn [rbind]. rewrite (bytes_eqb_neq _ _ Hne). reflexivity. }
  split; [exact E|]. intros rs log'. rewrite E. discriminate.
Qed.

Lemma sign_ssh_challenge_wrong_key_witness :
  Client.sign_ssh_challenge Sample.fmt (Sample.dev Sample.wrong_key)
    Sample.alice Sample.login []
  = (Raise AssertionError, [ssh_request Sample.alice Sample.login])
  /\ forall rs log',
       Client.sign_ssh_challenge Sample.fmt (Sample.dev Sample.wrong_key)
         Sample.alice Sample.login []
       <> (Ok rs, log').
Proof.
  apply (sign_ssh_challenge_wrong_key Sample.fmt (Sample.dev Sample.wrong_key)
           Sample.alice Sample.login []
           [("nonce"%string, VBytes [x0a]);
            ("user"%string, VBytes [x61]);
            ("conn"%string, VBytes [x63]);
            ("auth"%string, VBytes [x70]);
            ("key_type"%string, VBytes [x6b]);
            ("public_key"%string, VKey Sample.key)]
           (VBytes [x61]) Sample.wrong_key [x03] [x03] [x01; x02]);
    try reflexivity.
  discriminate.
Defined.

(** X21: whenever [sign_ssh_challenge] returns a signature, the device was
    asked once and the key it returned serializes to the key blob of the
    challenge; the signature blob has 65 bytes, byte 0 is zero, and the pair
    is what [parse_signature] extracts from it. *)
Lemma sign_ssh_challenge_returns_checked {VerifyingKey : Type}
    (fmt : formats.t VerifyingKey) (client : device.t)
    (identity : Identity) (blob_ : bytes) (log log' : list request)
    (rs : Z * Z) :
  Client.sign_ssh_challenge fmt client identity blob_ log = (Ok rs, log') ->
  exists msg signed vk claimed,
    _parse_ssh_blob fmt blob_ = Ok msg
    /\ device.sign_identity client log identity blob_ (path identity)
         (Some Client.curve_name) = Ok signed
    /\ formats.decompress_pubkey fmt (public_key signed) None = Ok vk
    /\ formats.serialize_verifying_key fmt vk = Ok claimed
    /\ rbind (getitem "public_key" msg) key_blob = Ok claimed
    /\ List.length (signature signed) = 65%nat
    /\ nth 0 (signature signed) x01 = x00
    /\ rs = parse_signature (signature signed)
    /\ log' = log ++ [ssh_request identity blob_].
Proof.
  unfold Client.sign_ssh_challenge, bind, lift, send, ret.
  destruct (assert (text_eqb (proto identity) (str "ssh")));
    [|discriminate].
  destruct (_parse_ssh_blob fmt blob_) as [msg|] eqn:Em; [|discriminate].
  destruct (getitem "user" msg); [|discriminate].
  destruct (device.sign_identity client log identity blob_ (path identity)
              (Some Client.curve_name)) as [signed|] eqn:Ea; [|discriminate].
  destruct (formats.decompress_pubkey fmt (public_key signed) None)
    as [vk|] eqn:Ev; [|discriminate].
  destruct (formats.serialize_verifying_key fmt vk) as [pkb|] eqn:Ep;
    [|discriminate].
  destruct (rbind (getitem "public_key" msg) key_blob) as [claimed|] eqn:Ec;
    [|discriminate].
  destruct (bytes_eqb pkb claimed) eqn:Ek; cbn [assert]; [|discriminate].
  apply bytes_eqb_eq in Ek. subst pkb.
  destruct (Nat.eqb (List.length (signature signed)) 65) eqn:El;
    cbn [assert]; [|discriminate].
  apply Nat.eqb_eq in El.
  destruct (signature signed) as [|b sg] eqn:Es; cbn [Client.first_byte];
    [discriminate|].
  destruct (Byte.eqb b x00) eqn:Eb; cbn [assert]; [|discriminate].
  apply byte_dec_bl in Eb. subst b.
  intros H. injection H as <- <-.
  exists msg, signed, vk, claimed. rewrite Es. repeat split; auto.
Qed.

(** C4: once the key check has passed, [sign_ssh_challenge] returns
    [(r, s)] only for a signature blob of 65 bytes whose byte 0 is zero:
    another length or another byte 0 raises [AssertionError]; 65 zero bytes
    are accepted and give [r = 0], [s = 0]. *)
Theorem sign_ssh_challenge_signature_shape {VerifyingKey : Type}
    (fmt : formats.t VerifyingKey) (client : device.t)
    (identity : Identity) (blob_ : bytes) (log : list request)
    (msg : dict) (u : value) (signed : SignedIdentity)
    (vk : VerifyingKey) (claimed : bytes) :
  proto identity = str "ssh" ->
  _parse_ssh_blob fmt blob_ = Ok msg ->
  getitem "user" msg = Ok u ->
  device.sign_identity client log identity blob_ (path identity)
    (Some Client.curve_name) = Ok signed ->
  formats.decompress_pubkey fmt (public_key signed) None = Ok vk ->
  formats.serialize_verifying_key fmt vk = Ok claimed ->
  rbind (getitem "public_key" msg) key_blob = Ok claimed ->
  let outcome :=
    fst (Client.sign_ssh_challenge fmt client identity blob_ log) in
  (List.length (signature signed) <> 65%nat -> outcome = Raise AssertionError)
  /\ (forall marker rest,
        signature signed = marker :: rest -> marker <> x00 ->
        outcome = Raise AssertionError)
  /\ (forall rest,
        signature signed = x00 :: rest -> List.length rest = 64%nat ->
        outcome = Ok (parse_signature (signature signed)))
  /\ (signature signed = repeat x00 65 -> outcome = Ok (0, 0)).
Proof.
  intros Hssh Hmsg Hu Hans Hvk Hpkb Hcl outcome.
  assert (E : outcome
              = (assert (Nat.eqb (List.length (signature signed)) 65) ;;;
                 marker <- Client.first_byte (signature signed) ;;
                 assert (Byte.eqb marker x00) ;;;
                 Ok (parse_signature (signature signed)))%result).
  { unfold outcome.
    rewrite (sign_ssh_challenge_answered fmt client identity blob_ log
               msg u signed Hssh Hmsg Hu Hans).
    cbn [fst]. rewrite Hvk. cbn [rbind]. rewrite Hpkb. cbn [rbind].
    rewrite Hcl. cbn [rbind]. rewrite bytes_eqb_refl. reflexivity. }
  rewrite E. clear E outcome.
  assert (Good : forall rest,
             signature signed = x00 :: rest -> List.length rest = 64%nat ->
             (assert (Nat.eqb (List.length (signature signed)) 65) ;;;
              marker <- Client.first_byte (signature signed) ;;
              assert (Byte.eqb marker x00) ;;;
              Ok (parse_signature (signature signed)))%result
             = Ok (parse_signature (signature signed))).
  { intros rest Hs Hl. rewrite Hs. cbn [List.length]. rewrite Hl.
    reflexivity. }
  split; [|split; [|split]].
  - intros Hl. apply Nat.eqb_neq in Hl. rewrite Hl. reflexivity.
  - intros marker rest Hs Hm. rewrite Hs.
    destruct (Nat.eqb (List.length (marker :: rest)) 65);
      [|reflexivity].
    cbn [assert rbind Client.first_byte].
    destruct (Byte.eqb marker x00) eqn:Eb; [|reflexivity].
    apply byte_dec_bl in Eb. contradiction.
  - exact Good.
  - intros Hs. rewrite (Good (repeat x00 64)).
    + rewrite Hs, parse_signature_zeros. reflexivity.
    + rewrite Hs. reflexivity.
    + apply repeat_length.
Qed.

Lemma sign_ssh_challenge_signature_shape_witness :
  fst (Client.sign_ssh_challenge Sample.fmt (Sample.dev Sample.good)
         Sample.alice Sample.login [])
  = Ok (0, 0).
Proof.
  apply (sign_ssh_challenge_signature_shape Sample.fmt
           (Sample.dev Sample.good) Sample.alice Sample.login []
           [("nonce"%string, VBytes [x0a]);
            ("user"%string, VBytes [x61]);
            ("conn"%string, VBytes [x63]);
            ("auth"%string, VBytes [x70]);
            ("key_type"%string, VBytes [x6b]);
            ("public_key"%string, VKey Sample.key)]
           (VBytes [x61]) Sample.good [x01; x02] [x01; x02]
           eq_refl eq_refl eq_refl eq_refl eq_refl eq_refl eq_refl).
  reflexivity.
Defined.

(** C10: on the empty blob, which the parser accepts, [sign_ssh_challenge]
    raises [KeyError] for ['user'] and has sent nothing to the device. *)
Theorem sign_ssh_challenge_empty_blob {VerifyingKey : Type}
    (fmt : formats.t VerifyingKey) (client : device.t)
    (identity : Identity) (log : list request) :
  proto identity = str "ssh" ->
  _parse_ssh_blob fmt [] = Ok []
  /\ Client.sign_ssh_challenge fmt client identity [] log
     = (Raise (KeyError "user"), log).
Proof.
  intros Hssh. split; [reflexivity|].
  unfold Client.sign_ssh_challenge, bind, lift.
  rewrite Hssh, text_eqb_refl. reflexivity.
Qed.

Lemma sign_ssh_challenge_empty_blob_witness :
  _parse_ssh_blob Sample.fmt [] = Ok []
  /\ Client.sign_ssh_challenge Sample.fmt (Sample.dev Sample.good)
       Sample.alice [] []
     = (Raise (KeyError "user"), []).
Proof.
  apply (sign_ssh_challenge_empty_blob Sample.fmt (Sample.dev Sample.good)
           Sample.alice []).
  reflexivity.
Defined.

(** Whatever the identity, the empty blob makes [sign_ssh_challenge] raise
    before anything is sent to the device. *)
Lemma sign_ssh_challenge_empty_blob_silent {VerifyingKey : Type}
    (fmt : formats.t VerifyingKey) (client : device.t)
    (identity : Identity) (log : list request) :
  exists e, Client.sign_ssh_challenge fmt client identity [] log
            = (Raise e, log).
Proof.
  unfold Client.sign_ssh_challenge, bind, lift.
  destruct (text_eqb (proto identity) (str "ssh")); cbn; eauto.
Qed.

(** *** The generic signing flow *)

Lemma validate_signature_codes {VerifyingKey : Type}
    (fmt : formats.t VerifyingKey) (signed : SignedIdentity)
    (digest : bytes) (curve : ecdsa_curve) (vk : VerifyingKey) :
  formats.decompress_pubkey fmt (public_key signed) (Some curve) = Ok vk ->
  let verdict :=
    formats.verify_digest fmt vk (parse_signature (signature signed)) digest in
  (forall u, verdict = Ok u -> _validate_signature fmt signed digest curve = Ok 0)
  /\ (verdict = Raise BadSignatureError ->
      _validate_signature fmt signed digest curve = Ok 1).
Proof.
  intros Hvk verdict. unfold _validate_signature. rewrite Hvk. cbn [rbind].
  fold verdict. split.
  - intros u ->. reflexivity.
  - intros ->. reflexivity.
Qed.

Section SignIdentity.

Context {VerifyingKey : Type}.
Variable fmt : formats.t VerifyingKey.
Variable btc : bitcoin.t.
Variable client : device.t.
Variable label : text.
Variable _strftime : text -> text.
Variable _urandom : nat -> bytes.
Variable log : list request.

(** The flow up to the computed address. *)
Variables (identity : Identity) (derivation_path : list Z) (node : bytes)
          (address_ : text).
Hypothesis resolved : Client.get_identity label None = Ok identity.
Hypothesis derived : _get_address fmt identity = Ok derivation_path.
Hypothesis got_node :
  device.get_public_node client log derivation_path None = Ok node.
Hypothesis got_address : bitcoin.pubkey_to_address btc node = Ok address_.

Let visual := _strftime (str "%d/%m/%y %H:%M:%S").
Let hidden := _urandom 64%nat.
Let log1 := log ++ [GetPublicNode derivation_path None].

Lemma sign_identity_display :
  Client.sign_identity fmt btc client label None _strftime _urandom log
  = (rbind (device.get_address client log1 derivation_path (str "Bitcoin")
              true)
       (fun _ => Ok 2),
     log1 ++ [GetAddress derivation_path (str "Bitcoin") true]).
Proof.
  unfold Client.sign_identity, bind, lift, send, ret.
  rewrite resolved, derived, got_node, got_address.
  fold log1.
  destruct (device.get_address client log1 derivation_path (str "Bitcoin")
              true); reflexivity.
Qed.

Lemma sign_identity_signed (signed : SignedIdentity) :
  device.sign_identity client log1 identity hidden visual None = Ok signed ->
  Client.sign_identity fmt btc client label (Some address_) _strftime
    _urandom log
  = ((assert (text_eqb address_ (address signed)) ;;;
      assert (bytes_eqb node (public_key signed)) ;;;
      _validate_signature fmt signed
        (message_digest fmt btc hidden (raw visual)) SECP256k1)%result,
     log1 ++ [SignIdentity identity hidden visual None]).
Proof.
  intros Hs.
  unfold Client.sign_identity, bind, lift, send, ret.
  rewrite resolved, derived, got_node, got_address.
  rewrite text_eqb_refl. cbn [assert].
  fold log1 visual hidden. rewrite Hs.
  destruct (assert (text_eqb address_ (address signed))); cbn [rbind];
    [|reflexivity].
  destruct (assert (bytes_eqb node (public_key signed))); reflexivity.
Qed.

End SignIdentity.

(** C7: [sign_identity] without an expected address asks the device for the
    public node and to display the address, sends no signing request and
    returns 2; with the expected address, and the address and key of the
    answer equal to the computed ones, it returns 0 when the signature
    verifies against the digest and 1 when the verification raises
    [BadSignatureError]. *)
Theorem sign_identity_return_codes {VerifyingKey : Type}
    (fmt : formats.t VerifyingKey) (btc : bitcoin.t) (client : device.t)
    (label : text) (_strftime : text -> text) (_urandom : nat -> bytes)
    (log : list request)
    (identity : Identity) (derivation_path : list Z) (node : bytes)
    (address_ : text) :
  Client.get_identity label None = Ok identity ->
  _get_address fmt identity = Ok derivation_path ->
  device.get_public_node client log derivation_path None = Ok node ->
  bitcoin.pubkey_to_address btc node = Ok address_ ->
  let visual := _strftime (str "%d/%m/%y %H:%M:%S") in
  let hidden := _urandom 64%nat in
  let log1 := log ++ [GetPublicNode derivation_path None] in
  (forall u,
      device.get_address client log1 derivation_path (str "Bitcoin") true
      = Ok u ->
      Client.sign_identity fmt btc client label None _strftime _urandom log
      = (Ok 2, log1 ++ [GetAddress derivation_path (str "Bitcoin") true]))
  /\ (forall q,
        In q (snd (Client.sign_identity fmt btc client label None _strftime
                     _urandom log)) ->
        In q log \/ is_sign_request q = false)
  /\ (forall signed vk,
        device.sign_identity client log1 identity hidden visual None
        = Ok signed ->
        address signed = address_ ->
        public_key signed = node ->
        formats.decompress_pubkey fmt (public_key signed) (Some SECP256k1)
        = Ok vk ->
        let digest :=
          bitcoin.electrum_sig_hash btc
            (formats.hashfunc fmt hidden
             ++ formats.hashfunc fmt (raw visual)) in
        let verdict :=
          formats.verify_digest fmt vk (parse_signature (signature signed))
            digest in
        let outcome :=
          fst (Client.sign_identity fmt btc client label (Some address_)
                 _strftime _urandom log) in
        (forall u, verdict = Ok u -> outcome = Ok 0)
        /\ (verdict = Raise BadSignatureError -> outcome = Ok 1)).
Proof.
  intros Hid Hpath Hnode Haddr visual hidden log1.
  split; [|split].
  - intros u Hu.
    rewrite (sign_identity_display fmt btc client label _strftime _urandom log
               identity derivation_path node address_ Hid Hpath Hnode Haddr).
    fold log1. rewrite Hu. reflexivity.
  - intros q.
    rewrite (sign_identity_display fmt btc client label _strftime _urandom log
               identity derivation_path node address_ Hid Hpath Hnode Haddr).
    cbn [snd]. rewrite !in_app_iff. cbn [In].
    intros [[H | [<- | []]] | [<- | []]]; auto.
  - intros signed vk Hs Ha Hk Hvk digest verdict outcome.
    assert (E : outcome
                = _validate_signature fmt signed
                    (message_digest fmt btc hidden (raw visual)) SECP256k1).
    { unfold outcome.
      rewrite (sign_identity_signed fmt btc client label _strftime _urandom
                 log identity derivation_path node address_ Hid Hpath Hnode
                 Haddr signed Hs).
      cbn [fst]. rewrite Ha, Hk, text_eqb_refl, bytes_eqb_refl.
      reflexivity. }
    rewrite E.
    exact (validate_signature_codes fmt signed
             (message_digest fmt btc hidden (raw visual)) SECP256k1 vk Hvk).
Qed.

Lemma sign_identity_return_codes_witness :
  Client.sign_identity Sample.fmt Sample.btc (Sample.dev Sample.good)
    (str "example.com") None (fun _ => str "now") (fun n => repeat x07 n) []
  = (Ok 2,
     [GetPublicNode
        [2147483661; 2147483648; 3982588005; 2925882480; 2154655587] None;
      GetAddress
        [2147483661; 2147483648; 3982588005; 2925882480; 2154655587]
        (str "Bitcoin") true])
  /\ fst (Client.sign_identity Sample.fmt Sample.btc (Sample.dev Sample.good)
            (str "example.com") (Some (str "1addr")) (fun _ => str "now")
            (fun n => repeat x07 n) [])
     = Ok 0
  /\ fst (Client.sign_identity Sample.fmt Sample.btc
            (Sample.dev Sample.bad_sig)
            (str "example.com") (Some (str "1addr")) (fun _ => str "now")
            (fun n => repeat x07 n) [])
     = Ok 1.
Proof.
  pose (host_only :=
          {| proto_f := None; user_f := None;
             host_f := Some (str "example.com"); port_f := None;
             path_f := None; index := 0 |}).
  pose (n := [2147483661; 2147483648; 3982588005; 2925882480; 2154655587]).
  split; [|split].
  - pose proof (sign_identity_return_codes Sample.fmt Sample.btc
                  (Sample.dev Sample.good) (str "example.com")
                  (fun _ => str "now") (fun n => repeat x07 n) []
                  host_only n [x01; x02] (str "1addr")
                  eq_refl eq_refl eq_refl eq_refl) as (H2 & _ & _).
    exact (H2 tt eq_refl).
  - pose proof (sign_identity_return_codes Sample.fmt Sample.btc
                  (Sample.dev Sample.good) (str "example.com")
                  (fun _ => str "now") (fun n => repeat x07 n) []
                  host_only n [x01; x02] (str "1addr")
                  eq_refl eq_refl eq_refl eq_refl) as (_ & _ & H).
    exact (proj1 (H Sample.good [x01; x02] eq_refl eq_refl eq_refl eq_refl)
             tt eq_refl).
  - pose proof (sign_identity_return_codes Sample.fmt Sample.btc
                  (Sample.dev Sample.bad_sig) (str "example.com")
                  (fun _ => str "now") (fun n => repeat x07 n) []
                  host_only n [x01; x02] (str "1addr")
                  eq_refl eq_refl eq_refl eq_refl) as (_ & _ & H).
    exact (proj2 (H Sample.bad_sig [x01; x02] eq_refl eq_refl eq_refl eq_refl)
             eq_refl).
Defined.

(** ** The matcher: repetitions *)

Section Stars.

Context {X : Type}.
Variable k : cls.

(** A repetition none of whose splits the continuation accepts fails. *)
Lemma star_greedy_none (s : text) (K : text -> text -> option X) :
  (forall y z, s = y ++ z -> forallb (cls_match k) y = true -> K y z = None) ->
  star_greedy k s K = None.
Proof.
  revert K. induction s as [|a s IH]; intros K H; cbn [star_greedy].
  - apply (H [] []); reflexivity.
  - destruct (cls_match k a) eqn:Ea.
    + rewrite IH; [apply (H [] (a :: s)); reflexivity|].
      intros y z -> Hy. apply (H (a :: y) z); [reflexivity|].
      cbn [forallb]. rewrite Ea. exact Hy.
    + apply (H [] (a :: s)); reflexivity.
Qed.

Lemma star_lazy_none (s : text) (K : text -> text -> option X) :
  (forall y z, s = y ++ z -> forallb (cls_match k) y = true -> K y z = None) ->
  star_lazy k s K = None.
Proof.
  revert K. induction s as [|a s IH]; intros K H; cbn [star_lazy].
  - rewrite (H [] []); reflexivity.
  - rewrite (H [] (a :: s)) by reflexivity.
    destruct (cls_match k a) eqn:Ea; [|reflexivity].
    apply IH. intros y z -> Hy. apply (H (a :: y) z); [reflexivity|].
    cbn [forallb]. rewrite Ea. exact Hy.
Qed.

(** The greedy repetition stops after the run [p] when the continuation
    accepts there and refuses every longer run. *)
Lemma star_greedy_hit (p x : text) (K : text -> text -> option X) (v : X) :
  forallb (cls_match k) p = true ->
  K p x = Some v ->
  (forall y z, x = y ++ z -> y <> [] -> forallb (cls_match k) y = true ->
               K (p ++ y) z = None) ->
  star_greedy k (p ++ x) K = Some v.
Proof.
  revert K. induction p as [|a p IH]; intros K Hp Hv Hlong.
  - cbn [app] in *. destruct x as [|b x]; cbn [star_greedy]; [exact Hv|].
    destruct (cls_match k b) eqn:Eb; [|exact Hv].
    rewrite star_greedy_none; [exact Hv|].
    intros y z -> Hy. apply (Hlong (b :: y) z); [reflexivity|discriminate|].
    cbn [forallb]. rewrite Eb. exact Hy.
  - cbn [forallb] in Hp. apply andb_prop in Hp. destruct Hp as [Ha Hp].
    cbn [app star_greedy]. rewrite Ha.
    rewrite (IH (fun m rest => K (a :: m) rest) Hp Hv); [reflexivity|].
    intros y z E Hy. apply (Hlong y z E Hy).
Qed.

(** The lazy repetition stops after the run [p] when the continuation
    accepts there and refuses every shorter run. *)
Lemma star_lazy_hit (p x : text) (K : text -> text -> option X) (v : X) :
  forallb (cls_match k) p = true ->
  K p x = Some v ->
  (forall y a z, p = y ++ a :: z -> K y (a :: z ++ x) = None) ->
  star_lazy k (p ++ x) K = Some v.
Proof.
  revert K. induction p as [|a p IH]; intros K Hp Hv Hshort.
  - cbn [app]. destruct x as [|b x]; cbn [star_lazy]; rewrite Hv; reflexivity.
  - cbn [forallb] in Hp. apply andb_prop in Hp. destruct Hp as [Ha Hp].
    cbn [app star_lazy].
    rewrite (Hshort [] a p eq_refl). rewrite Ha.
    apply (IH (fun m rest => K (a :: m) rest) Hp Hv).
    intros y b z ->. apply (Hshort (a :: y) b z). reflexivity.
Qed.

End Stars.

(** ** The matcher: literals and line ends *)

Lemma strip_prefix_app (p s : text) : strip_prefix p (p ++ s) = Some s.
Proof.
  induction p as [|a p IH]; cbn [app strip_prefix]; [reflexivity|].
  rewrite Ascii.eqb_refl. exact IH.
Qed.

Lemma strip_prefix_head (a b : ascii) (p s : text) :
  a <> b -> strip_prefix (a :: p) (b :: s) = None.
Proof.
  intros H. cbn [strip_prefix].
  destruct (Ascii.eqb a b) eqn:E; [|reflexivity].
  apply Ascii.eqb_eq in E. contradiction.
Qed.

Lemma strip_prefix_nil (a : ascii) (p : text) : strip_prefix (a :: p) [] = None.
Proof. reflexivity. Qed.

Lemma at_eol_cons (a : ascii) (s : text) :
  a <> newline -> at_eol (a :: s) = false.
Proof.
  intros H. destruct s as [|b s]; cbn [at_eol]; [|reflexivity].
  destruct (Ascii.eqb a newline) eqn:E; [|reflexivity].
  apply Ascii.eqb_eq in E. contradiction.
Qed.

(** A text without the first character of a literal holds no occurrence of
    the literal. *)
Lemma strip_prefix_absent (a : ascii) (p s : text) :
  ~ In a s -> forall y z, s = y ++ z -> strip_prefix (a :: p) z = None.
Proof.
  intros Hs y z ->. destruct z as [|b z]; [reflexivity|].
  apply strip_prefix_head. intros ->. apply Hs.
  apply in_or_app. right. left. reflexivity.
Qed.

(** ** The identity codec *)

Lemma eqb_neq_false (a b : ascii) : Ascii.eqb a b = false -> a <> b.
Proof. intros H ->. rewrite Ascii.eqb_refl in H. discriminate. Qed.

Lemma plain_spec (a : ascii) :
  plain a = true ->
  a <> ":"%char /\ a <> "/"%char /\ a <> "@"%char /\ a <> newline.
Proof.
  unfold plain, is_delimiter. intros H.
  apply andb_prop in H. destruct H as [H1 H2].
  apply negb_true_iff in H1, H2.
  apply orb_false_elim in H1. destruct H1 as [H1 H3].
  apply orb_false_elim in H1. destruct H1 as [H1 H4].
  auto using eqb_neq_false.
Qed.

Lemma path_char_spec (a : ascii) :
  path_char a = true -> a <> ":"%char /\ a <> "@"%char /\ a <> newline.
Proof.
  unfold path_char. intros H.
  apply andb_prop in H. destruct H as [H H3].
  apply andb_prop in H. destruct H as [H1 H2].
  apply negb_true_iff in H1, H2, H3.
  auto using eqb_neq_false.
Qed.

Lemma word_plain (a : ascii) : is_word a = true -> plain a = true.
Proof.
  destruct a as [[] [] [] [] [] [] [] []]; vm_compute; intros H;
    first [reflexivity | discriminate H].
Qed.

Lemma forallb_impl (f g : ascii -> bool) (s : text) :
  (forall a, f a = true -> g a = true) ->
  forallb f s = true -> forallb g s = true.
Proof.
  intros H Hs. rewrite forallb_forall in *. auto.
Qed.

Lemma plain_dot (s : text) :
  forallb plain s = true -> forallb (cls_match CDot) s = true.
Proof.
  apply forallb_impl. intros a Ha. apply plain_spec in Ha.
  cbn [cls_match]. apply negb_true_iff.
  destruct (Ascii.eqb a newline) eqn:E; [|reflexivity].
  apply Ascii.eqb_eq in E. tauto.
Qed.

Lemma path_char_dot (s : text) :
  forallb path_char s = true -> forallb (cls_match CDot) s = true.
Proof.
  apply forallb_impl. intros a Ha. apply path_char_spec in Ha.
  cbn [cls_match]. apply negb_true_iff.
  destruct (Ascii.eqb a newline) eqn:E; [|reflexivity].
  apply Ascii.eqb_eq in E. tauto.
Qed.

Lemma valid_path_inv (path_ : option text) :
  valid_path path_ = true ->
  path_ = None
  \/ exists rest, path_ = Some ("/"%char :: rest)
                  /\ forallb path_char rest = true.
Proof.
  destruct path_ as [[|c rest]|]; cbn [valid_path]; intros H;
    [discriminate| |left; reflexivity].
  apply andb_prop in H. destruct H as [H1 H2]. apply Ascii.eqb_eq in H1.
  subst c. right. eauto.
Qed.

Lemma present_inv (ok : ascii -> bool) (f : option text) :
  present ok f = true ->
  f = None
  \/ exists a v, f = Some (a :: v) /\ ok a = true /\ forallb ok v = true.
Proof.
  destruct f as [[|a v]|]; cbn [present truthy forallb andb]; intros H;
    [discriminate| |left; reflexivity].
  apply andb_prop in H. right. exists a, v. tauto.
Qed.

(** The equations of [run], one per construct. *)
Section RunEquations.

Context {X : Type}.
Variable K : text -> text -> caps -> option X.
Variables (pos : nat) (s : text) (c : caps).

Lemma run_seq (r1 r2 : regex) :
  run (Seq r1 r2) pos s c K
  = run r1 pos s c
      (fun m1 s1 c1 =>
         run r2 (pos + List.length m1) s1 c1
           (fun m2 s2 c2 => K (m1 ++ m2) s2 c2)).
Proof. reflexivity. Qed.

Lemma run_opt (r : regex) :
  run (Opt r) pos s c K
  = match run r pos s c K with
    | Some v => Some v
    | None => K [] s c
    end.
Proof. reflexivity. Qed.

Lemma run_group (n : string) (r : regex) :
  run (Group n r) pos s c K
  = run r pos s c (fun m s' c' => K m s' ((n, m) :: c')).
Proof. reflexivity. Qed.

Lemma run_lit (p : text) :
  run (Lit p) pos s c K
  = match strip_prefix p s with
    | Some s' => K p s' c
    | None => None
    end.
Proof. reflexivity. Qed.

Lemma run_star (k : cls) :
  run (Star k) pos s c K = star_greedy k s (fun m rest => K m rest c).
Proof. reflexivity. Qed.

Lemma run_star_lazy (k : cls) :
  run (StarLazy k) pos s c K = star_lazy k s (fun m rest => K m rest c).
Proof. reflexivity. Qed.

Lemma run_eol :
  run Eol pos s c K = if at_eol s then K [] s c else None.
Proof. reflexivity. Qed.

Lemma run_bol :
  run Bol pos s c K = if Nat.eqb pos 0 then K [] s c else None.
Proof. reflexivity. Qed.

End RunEquations.

(** The end of the pattern, the optional path and [$], on a path or on
    nothing. *)
Lemma run_path {X : Type} (K : text -> text -> caps -> option X) (v : X)
    (pos : nat) (path_ : option text) (c : caps) :
  valid_path path_ = true ->
  K (tail_path path_) [] (captured "path" path_ c) = Some v ->
  run (Seq re_path Eol) pos (tail_path path_) c K = Some v.
Proof.
  intros Hv HK. destruct (valid_path_inv _ Hv) as [-> | (rest & -> & Hr)].
  - cbn in *. exact HK.
  - cbn [tail_path captured] in *. unfold re_path.
    rewrite run_seq, run_opt, run_group, run_seq, run_lit.
    change (strip_prefix (str "/") ("/"%char :: rest)) with (Some rest).
    cbv beta iota. rewrite run_star.
    rewrite <- (app_nil_r rest) at 1.
    erewrite star_greedy_hit; [reflexivity|apply path_char_dot, Hr| |].
    + rewrite run_eol. cbn [at_eol]. rewrite !app_nil_r. exact HK.
    + intros y z E Hy. symmetry in E. apply app_eq_nil in E.
      destruct E. contradiction.
Qed.

(** The same end of the pattern, with the optional port before it, refuses
    a text that starts with a plain character. *)
Lemma run_port_refuses {X : Type} (K : text -> text -> caps -> option X)
    (pos : nat) (a : ascii) (t : text) (c : caps) :
  plain a = true ->
  run (Seq re_port (Seq re_path Eol)) pos (a :: t) c K = None.
Proof.
  intros Ha. apply plain_spec in Ha. destruct Ha as (H1 & H2 & _ & H4).
  unfold re_port, re_path.
  cbn [run str list_ascii_of_string].
  rewrite !strip_prefix_head by congruence.
  rewrite at_eol_cons by assumption. reflexivity.
Qed.

Lemma run_port {X : Type} (K : text -> text -> caps -> option X) (v : X)
    (pos : nat) (port_ path_ : option text) (c : caps) :
  present is_word port_ = true ->
  valid_path path_ = true ->
  K (tail_port port_ path_) []
    (captured "path" path_ (captured "port" port_ c)) = Some v ->
  run (Seq re_port (Seq re_path Eol)) pos (tail_port port_ path_) c K
  = Some v.
Proof.
  intros Hp Hv HK.
  destruct (present_inv _ _ Hp) as [-> | (a & o & -> & Ha & Ho)].
  - (* no port: the optional group is left out *)
    cbn [tail_port captured] in *. unfold re_port.
    rewrite run_seq, run_opt, run_seq, run_lit.
    replace (strip_prefix (str ":") (tail_path path_)) with (@None text).
    + apply run_path; assumption.
    + destruct (valid_path_inv _ Hv) as [-> | (rest & -> & _)];
        reflexivity.
  - (* a port: the greedy run of word characters is the port *)
    cbn [tail_port captured] in *. unfold re_port.
    rewrite run_seq, run_opt, run_seq, run_lit, strip_prefix_app.
    cbv beta iota. rewrite run_group, run_star.
    erewrite star_greedy_hit; [reflexivity| | |].
    + cbn [forallb cls_match]. rewrite Ha. exact Ho.
    + apply run_path; [assumption|]. exact HK.
    + intros y z E Hy Hw.
      destruct (valid_path_inv _ Hv) as [-> | (rest & -> & _)];
        cbn [tail_path] in E.
      * symmetry in E. apply app_eq_nil in E. destruct E. contradiction.
      * destruct y as [|b y]; [contradiction|].
        cbn [app] in E. injection E as <- _.
        cbn in Hw. discriminate Hw.
Qed.

(** The host, lazily: the shortest run after which the rest of the pattern
    matches is the whole host. *)
Lemma run_host {X : Type} (K : text -> text -> caps -> option X) (v : X)
    (pos : nat) (host_ : text) (port_ path_ : option text) (c : caps) :
  forallb plain host_ = true ->
  present is_word port_ = true ->
  valid_path path_ = true ->
  K (host_ ++ tail_port port_ path_) []
    (captured "path" path_
       (captured "port" port_ (("host"%string, host_) :: c))) = Some v ->
  run (Seq re_host (Seq re_port (Seq re_path Eol))) pos
    (host_ ++ tail_port port_ path_) c K
  = Some v.
Proof.
  intros Hh Hp Hv HK. unfold re_host.
  rewrite run_seq, run_group, run_star_lazy.
  erewrite star_lazy_hit; [reflexivity|apply plain_dot, Hh| |].
  - apply run_port; assumption.
  - intros y a z E. apply run_port_refuses.
    rewrite forallb_forall in Hh. apply Hh. rewrite E.
    apply in_or_app. right. left. reflexivity.
Qed.

(** *** Texts without [@] and without [://] *)

Lemma clean_nil : clean [].
Proof.
  intros y z E. symmetry in E. apply app_eq_nil in E. destruct E as [_ ->].
  reflexivity.
Qed.

Lemma clean_cons (a : ascii) (x : text) :
  a <> ":"%char -> clean x -> clean (a :: x).
Proof.
  intros Ha Hx y z E. destruct y as [|b y]; cbn [app] in E.
  - subst z. apply strip_prefix_head. congruence.
  - injection E as _ E. exact (Hx y z E).
Qed.

Lemma clean_colon (b : ascii) (x : text) :
  b <> "/"%char -> clean (b :: x) -> clean (":"%char :: b :: x).
Proof.
  intros Hb Hx y z E. destruct y as [|a y]; cbn [app] in E.
  - subst z. cbn [str list_ascii_of_string strip_prefix].
    rewrite Ascii.eqb_refl.
    destruct (Ascii.eqb "/" b) eqn:Eb; [|reflexivity].
    apply Ascii.eqb_eq in Eb. congruence.
  - injection E as _ E. exact (Hx y z E).
Qed.

Lemma clean_app (u x : text) :
  (forall a, In a u -> a <> ":"%char) -> clean x -> clean (u ++ x).
Proof.
  intros Hu Hx. induction u as [|a u IH]; [exact Hx|].
  cbn [app]. apply clean_cons.
  - apply Hu. left. reflexivity.
  - apply IH. intros b Hb. apply Hu. right. exact Hb.
Qed.

Lemma plain_in (s : text) (a : ascii) :
  forallb plain s = true -> In a s ->
  a <> ":"%char /\ a <> "/"%char /\ a <> "@"%char /\ a <> newline.
Proof.
  intros Hs Ha. rewrite forallb_forall in Hs. apply plain_spec, Hs, Ha.
Qed.

Lemma path_char_in (s : text) (a : ascii) :
  forallb path_char s = true -> In a s ->
  a <> ":"%char /\ a <> "@"%char /\ a <> newline.
Proof.
  intros Hs Ha. rewrite forallb_forall in Hs. apply path_char_spec, Hs, Ha.
Qed.

Section Tails.

Variables (host_ : text) (port_ path_ : option text).
Hypothesis valid_host : forallb plain host_ = true.
Hypothesis valid_port : present is_word port_ = true.
Hypothesis valid_path_ : valid_path path_ = true.

Lemma tail_path_no_at : ~ In "@"%char (tail_path path_).
Proof.
  destruct (valid_path_inv _ valid_path_) as [-> | (rest & -> & Hr)];
    cbn [tail_path In]; [tauto|].
  intros [H | H]; [discriminate H|].
  apply (path_char_in _ _ Hr) in H. intuition congruence.
Qed.

Lemma tail_path_clean : clean (tail_path path_).
Proof.
  destruct (valid_path_inv _ valid_path_) as [-> | (rest & -> & Hr)];
    cbn [tail_path]; [apply clean_nil|].
  apply clean_cons; [discriminate|].
  rewrite <- (app_nil_r rest). apply clean_app; [|apply clean_nil].
  intros a Ha. apply (path_char_in _ _ Hr) in Ha. intuition congruence.
Qed.

Lemma word_in (o : text) (a : ascii) :
  forallb is_word o = true -> In a o ->
  a <> ":"%char /\ a <> "/"%char /\ a <> "@"%char /\ a <> newline.
Proof.
  intros Ho Ha. apply (plain_in o); [|exact Ha].
  revert Ho. apply forallb_impl, word_plain.
Qed.

Lemma tail_port_no_at : ~ In "@"%char (tail_port port_ path_).
Proof.
  destruct (present_inv _ _ valid_port) as [-> | (a & o & -> & Ha & Ho)];
    cbn [tail_port]; [apply tail_path_no_at|].
  cbn [str list_ascii_of_string app In]. intros [H | [H | H]].
  - discriminate H.
  - apply word_plain, plain_spec in Ha. symmetry in H. intuition congruence.
  - apply in_app_or in H. destruct H as [H | H].
    + apply (word_in _ _ Ho) in H. intuition congruence.
    + exact (tail_path_no_at H).
Qed.

Lemma tail_port_clean : clean (tail_port port_ path_).
Proof.
  destruct (present_inv _ _ valid_port) as [-> | (a & o & -> & Ha & Ho)];
    cbn [tail_port]; [apply tail_path_clean|].
  cbn [str list_ascii_of_string app].
  pose proof (plain_spec _ (word_plain _ Ha)) as (Ha1 & Ha2 & _).
  apply clean_colon; [exact Ha2|].
  apply clean_cons; [exact Ha1|].
  apply clean_app; [|apply tail_path_clean].
  intros b Hb. apply (word_in _ _ Ho) in Hb. intuition congruence.
Qed.

Lemma host_tail_no_at : ~ In "@"%char (host_ ++ tail_port port_ path_).
Proof.
  intros H. apply in_app_or in H. destruct H as [H | H].
  - apply (plain_in _ _ valid_host) in H. intuition congruence.
  - exact (tail_port_no_at H).
Qed.

Lemma host_tail_clean : clean (host_ ++ tail_port port_ path_).
Proof.
  apply clean_app; [|apply tail_port_clean].
  intros a Ha. apply (plain_in _ _ valid_host) in Ha. intuition congruence.
Qed.

Lemma user_tail_clean (user_ : option text) :
  present plain user_ = true ->
  clean (tail_user user_ (host_ ++ tail_port port_ path_)).
Proof.
  intros Hu.
  destruct (present_inv _ _ Hu) as [-> | (a & u & -> & Ha & Hu')];
    cbn [tail_user]; [apply host_tail_clean|].
  apply clean_app.
  - intros b [<- | Hb].
    + apply plain_spec in Ha. intuition congruence.
    + apply (plain_in _ _ Hu') in Hb. intuition congruence.
  - cbn [str list_ascii_of_string app]. apply clean_cons; [discriminate|].
    apply host_tail_clean.
Qed.

End Tails.

(** The user, greedily: the run stops at the only [@]. *)
Lemma run_user {X : Type} (K : text -> text -> caps -> option X) (v : X)
    (pos : nat) (user_ : option text) (host_ : text)
    (port_ path_ : option text) (c : caps) :
  present plain user_ = true ->
  forallb plain host_ = true ->
  present is_word port_ = true ->
  valid_path path_ = true ->
  K (tail_user user_ (host_ ++ tail_port port_ path_)) []
    (captured "path" path_
       (captured "port" port_
          (("host"%string, host_) :: captured "user" user_ c))) = Some v ->
  run (Seq re_user (Seq re_host (Seq re_port (Seq re_path Eol)))) pos
    (tail_user user_ (host_ ++ tail_port port_ path_)) c K
  = Some v.
Proof.
  intros Hu Hh Hp Hv HK.
  pose proof (host_tail_no_at host_ port_ path_ Hh Hp Hv) as Hat.
  unfold re_user. rewrite run_seq, run_opt, run_seq, run_group, run_star.
  destruct (present_inv _ _ Hu) as [-> | (a & u & -> & Ha & Hu')];
    cbn [tail_user captured] in *.
  - (* no user: no [@] to stop at *)
    rewrite star_greedy_none.
    + apply run_host; assumption.
    + intros y z E _. rewrite run_lit. cbn [str list_ascii_of_string].
      rewrite (strip_prefix_absent _ _ _ Hat y z E). reflexivity.
  - erewrite star_greedy_hit; [reflexivity| | |].
    + apply plain_dot. cbn [forallb]. rewrite Ha. exact Hu'.
    + rewrite run_lit, strip_prefix_app. apply run_host; try assumption.
      rewrite <- HK. f_equal. rewrite <- app_assoc. reflexivity.
    + intros y z E Hy _. rewrite run_lit.
      destruct y as [|b y]; [contradiction|].
      cbn [str list_ascii_of_string app] in *. injection E as _ E.
      rewrite (strip_prefix_absent _ _ _ Hat y z E). reflexivity.
Qed.

Lemma clean_after (x : text) :
  clean x ->
  forall y z, str "://" ++ x = y ++ z -> y <> [] ->
              strip_prefix (str "://") z = None.
Proof.
  intros Hx y z E Hy.
  destruct y as [|a [|b [|d y]]]; [contradiction| | |];
    cbn [str list_ascii_of_string app] in E.
  - injection E as _ <-. reflexivity.
  - injection E as _ _ <-. reflexivity.
  - injection E as _ _ _ E. exact (Hx y z E).
Qed.

(** The protocol, greedily: the run stops at the only [://]. *)
Lemma run_proto {X : Type} (K : text -> text -> caps -> option X) (v : X)
    (pos : nat) (p : parts) :
  valid p = true ->
  K (render p) [] (groups p) = Some v ->
  run (Seq re_proto
         (Seq re_user (Seq re_host (Seq re_port (Seq re_path Eol)))))
      pos (render p) [] K
  = Some v.
Proof.
  destruct p as [proto_ user_ host_ port_ path_].
  unfold valid, render, groups. cbn [p_proto p_user p_host p_port p_path].
  intros Hval HK.
  apply andb_prop in Hval. destruct Hval as [Hval Hv].
  apply andb_prop in Hval. destruct Hval as [Hval Hp].
  apply andb_prop in Hval. destruct Hval as [Hval Hh].
  apply andb_prop in Hval. destruct Hval as [Hpr Hu].
  pose proof (user_tail_clean host_ port_ path_ Hh Hp Hv user_ Hu) as Hcl.
  unfold re_proto. rewrite run_seq, run_opt, run_seq, run_group, run_star.
  destruct (present_inv _ _ Hpr) as [-> | (a & pr & -> & Ha & Hpr')];
    cbn [tail_proto captured] in *.
  - (* no protocol: no [://] to stop at *)
    rewrite star_greedy_none.
    + apply run_user; assumption.
    + intros y z E _. rewrite run_lit, (Hcl y z E). reflexivity.
  - erewrite star_greedy_hit; [reflexivity| | |].
    + apply plain_dot. cbn [forallb]. rewrite Ha. exact Hpr'.
    + rewrite run_lit, strip_prefix_app. apply run_user; try assumption.
      rewrite <- HK. f_equal. rewrite <- app_assoc. reflexivity.
    + intros y z E Hy _.
      rewrite run_lit, (clean_after _ Hcl y z E Hy). reflexivity.
Qed.

(** The match of the string of valid components captures the components. *)
Lemma match_render (p : parts) :
  valid p = true -> match_ _identity_regexp (render p) = Some (groups p).
Proof.
  intros Hv. unfold match_, _identity_regexp.
  rewrite run_seq, run_bol. cbn [Nat.eqb].
  apply run_proto; [exact Hv|reflexivity].
Qed.

Lemma identity_type_groups (p : parts) :
  valid p = true -> identity_type (groups p) = identity_of p.
Proof.
  destruct p as [proto_ user_ host_ port_ path_].
  unfold valid, groups, identity_of, identity_type.
  cbn [p_proto p_user p_host p_port p_path].
  intros Hval.
  apply andb_prop in Hval. destruct Hval as [Hval Hv].
  apply andb_prop in Hval. destruct Hval as [Hval Hp].
  apply andb_prop in Hval. destruct Hval as [Hval Hh].
  apply andb_prop in Hval. destruct Hval as [Hpr Hu].
  destruct (present_inv _ _ Hpr) as [-> | (a1 & v1 & -> & _)];
    destruct (present_inv _ _ Hu) as [-> | (a2 & v2 & -> & _)];
    destruct (present_inv _ _ Hp) as [-> | (a3 & v3 & -> & _)];
    destruct (valid_path_inv _ Hv) as [-> | (v4 & -> & _)];
    reflexivity.
Qed.

Lemma identity_to_string_of (p : parts) :
  valid p = true -> _identity_to_string (identity_of p) = render p.
Proof.
  destruct p as [proto_ user_ host_ port_ path_].
  unfold valid, render, identity_of, _identity_to_string,
    proto, user, host, port, path.
  cbn [p_proto p_user p_host p_port p_path
       proto_f user_f host_f port_f path_f].
  intros Hval.
  apply andb_prop in Hval. destruct Hval as [Hval Hv].
  apply andb_prop in Hval. destruct Hval as [Hval Hp].
  apply andb_prop in Hval. destruct Hval as [Hval Hh].
  apply andb_prop in Hval. destruct Hval as [Hpr Hu].
  assert (Hhost : field (if truthy host_ then Some host_ else None) = host_)
    by (destruct host_; reflexivity).
  rewrite Hhost.
  destruct (present_inv _ _ Hpr) as [-> | (a1 & v1 & -> & _)];
    destruct (present_inv _ _ Hu) as [-> | (a2 & v2 & -> & _)];
    destruct (present_inv _ _ Hp) as [-> | (a3 & v3 & -> & _)];
    destruct (valid_path_inv _ Hv) as [-> | (v4 & -> & _)];
    cbn [field truthy tail_proto tail_user tail_port tail_path];
    rewrite <- ?app_assoc, ?app_nil_r; reflexivity.
Qed.

(** C2, amended: for the string [[proto://][user@]host[:port][/path]] of
    components in which a protocol, user or port that is present is not
    empty, protocol, user and host hold no [:], [/], [@] or line feed, the
    port holds word characters and the path is [/] followed by characters
    other than [:], [@] and line feed, parsing yields exactly these
    components, formatting the parsed identity gives the string back, and
    parsing that again gives the same identity. *)
Theorem identity_roundtrip (p : parts) :
  valid p = true ->
  _string_to_identity (render p) = Ok (identity_of p)
  /\ _identity_to_string (identity_of p) = render p
  /\ _string_to_identity (_identity_to_string (identity_of p))
     = Ok (identity_of p).
Proof.
  intros Hv.
  assert (E : _string_to_identity (render p) = Ok (identity_of p)).
  { unfold _string_to_identity.
    rewrite (match_render p Hv), (identity_type_groups p Hv). reflexivity. }
  split; [exact E|].
  split; [exact (identity_to_string_of p Hv)|].
  rewrite (identity_to_string_of p Hv). exact E.
Qed.

Lemma identity_roundtrip_witness :
  _string_to_identity (str "ssh://alice@example.com:22/home/a")
  = Ok {| proto_f := Some (str "ssh"); user_f := Some (str "alice");
          host_f := Some (str "example.com"); port_f := Some (str "22");
          path_f := Some (str "/home/a"); index := 0 |}
  /\ _identity_to_string
       {| proto_f := Some (str "ssh"); user_f := Some (str "alice");
          host_f := Some (str "example.com"); port_f := Some (str "22");
          path_f := Some (str "/home/a"); index := 0 |}
     = str "ssh://alice@example.com:22/home/a"
  /\ _string_to_identity
       (_identity_to_string
          {| proto_f := Some (str "ssh"); user_f := Some (str "alice");
             host_f := Some (str "example.com"); port_f := Some (str "22");
             path_f := Some (str "/home/a"); index := 0 |})
     = Ok {| proto_f := Some (str "ssh"); user_f := Some (str "alice");
             host_f := Some (str "example.com"); port_f := Some (str "22");
             path_f := Some (str "/home/a"); index := 0 |}.
Proof.
  apply (identity_roundtrip
           {| p_proto := Some (str "ssh"); p_user := Some (str "alice");
              p_host := str "example.com"; p_port := Some (str "22");
              p_path := Some (str "/home/a") |}).
  reflexivity.
Defined.

(** Scenario A of the spec: [ssh://alice@example.com/] parses to protocol
    [ssh], user [alice], host [example.com] and path [/], and is formatted
    back to itself. *)
Example identity_scenario_a :
  _string_to_identity (str "ssh://alice@example.com/") = Ok Sample.alice
  /\ _identity_to_string Sample.alice = str "ssh://alice@example.com/".
Proof. split; reflexivity. Qed.

(** The string [host:] is matched by the pattern, with an empty port, and
    does not survive the round trip: the empty port is dropped and the
    identity is formatted as [host]. *)
Lemma identity_roundtrip_empty_port :
  match_ _identity_regexp (str "host:")
  = Some [("port"%string, []); ("host"%string, str "host")]
  /\ exists i,
       _string_to_identity (str "host:") = Ok i
       /\ _identity_to_string i = str "host"
       /\ _identity_to_string i <> str "host:".
Proof.
  split; [reflexivity|].
  eexists. split; [reflexivity|]. split; [reflexivity|]. discriminate.
Qed.

(** So does a string that ends with a line feed: [$] matches before it. *)
Lemma identity_roundtrip_final_newline :
  exists i,
    _string_to_identity (str "host" ++ [newline]) = Ok i
    /\ _identity_to_string i = str "host".
Proof. eexists. split; reflexivity. Qed.

(** *** Strings the pattern does not match *)

Lemma strip_prefix_some (p s s' : text) :
  strip_prefix p s = Some s' -> s = p ++ s'.
Proof.
  revert s. induction p as [|a p IH]; intros s H; cbn [strip_prefix] in H.
  - injection H as ->. reflexivity.
  - destruct s as [|b s]; [discriminate|].
    destruct (Ascii.eqb a b) eqn:E; [|discriminate].
    apply Ascii.eqb_eq in E. subst b. cbn [app]. f_equal. apply IH, H.
Qed.

Lemma inner_newline_not_eol (s : text) : inner_newline s -> at_eol s = false.
Proof.
  intros (y & z & -> & Hz).
  destruct y as [|a [|b y]]; destruct z; try contradiction; reflexivity.
Qed.

Lemma inner_newline_strip (y z : text) :
  inner_newline (y ++ z) -> ~ In newline y -> inner_newline z.
Proof.
  intros (a & b & E & Hb) Hy.
  destruct (app_eq_app _ _ _ _ E) as (l & [[E1 E2] | [E1 E2]]).
  - destruct l as [|d l].
    + cbn [app] in E2. exists [], b. split; [symmetry; exact E2|exact Hb].
    + cbn [app] in E2. injection E2 as <- _. exfalso. apply Hy.
      rewrite E1. apply in_or_app. right. left. reflexivity.
  - exists l, b. split; [exact E2|exact Hb].
Qed.

Lemma one_line_run_of (k : cls) (y : text) :
  one_line (Star k) = true -> forallb (cls_match k) y = true ->
  ~ In newline y.
Proof.
  intros Hk Hy H. rewrite forallb_forall in Hy. specialize (Hy _ H).
  destruct k as [c| |]; cbn [one_line cls_match] in *.
  - apply negb_true_iff in Hk. rewrite Ascii.eqb_sym in Hk. congruence.
  - rewrite Ascii.eqb_refl in Hy. discriminate.
  - discriminate Hy.
Qed.

Lemma one_line_lit (p : text) :
  one_line (Lit p) = true -> ~ In newline p.
Proof.
  cbn [one_line]. intros Hp H. rewrite forallb_forall in Hp.
  specialize (Hp _ H). rewrite Ascii.eqb_refl in Hp. discriminate.
Qed.

(** A one-line pattern leaves an inner line feed to what follows it. *)
Lemma run_one_line {X : Type} (r : regex) :
  one_line r = true ->
  forall pos s c (K : text -> text -> caps -> option X),
    inner_newline s ->
    (forall m rest c', inner_newline rest -> K m rest c' = None) ->
    run r pos s c K = None.
Proof.
  induction r as [| |p|k|k|r1 IH1 r2 IH2|r IH|n r IH];
    intros Hr pos s c K Hs HK.
  - rewrite run_bol. destruct (Nat.eqb pos 0); [apply HK, Hs|reflexivity].
  - rewrite run_eol, (inner_newline_not_eol s Hs). reflexivity.
  - rewrite run_lit. destruct (strip_prefix p s) as [s'|] eqn:E;
      [|reflexivity].
    apply strip_prefix_some in E. subst s.
    apply HK. exact (inner_newline_strip _ _ Hs (one_line_lit p Hr)).
  - rewrite run_star. apply star_greedy_none. intros y z -> Hy.
    apply HK. exact (inner_newline_strip _ _ Hs (one_line_run_of k y Hr Hy)).
  - rewrite run_star_lazy. apply star_lazy_none. intros y z -> Hy.
    apply HK. exact (inner_newline_strip _ _ Hs (one_line_run_of k y Hr Hy)).
  - cbn [one_line] in Hr. apply andb_prop in Hr. destruct Hr as [H1 H2].
    rewrite run_seq. apply (IH1 H1); [exact Hs|].
    intros m1 s1 c1 Hs1. apply (IH2 H2); [exact Hs1|].
    intros m2 s2 c2 Hs2. apply HK, Hs2.
  - cbn [one_line] in Hr. rewrite run_opt.
    rewrite (IH Hr pos s c K Hs HK). apply HK, Hs.
  - cbn [one_line] in Hr. rewrite run_group. apply (IH Hr); [exact Hs|].
    intros m rest c' Hrest. apply HK, Hrest.
Qed.

(** A one-line pattern that ends with [$] matches no string with an inner
    line feed. *)
Lemma run_closed {X : Type} (r : regex) :
  closed r = true ->
  forall pos s c (K : text -> text -> caps -> option X),
    inner_newline s -> run r pos s c K = None.
Proof.
  induction r as [| |p|k|k|r1 IH1 r2 IH2|r IH|n r IH];
    intros Hr pos s c K Hs; try discriminate Hr.
  - rewrite run_eol, (inner_newline_not_eol s Hs). reflexivity.
  - cbn [closed] in Hr. apply andb_prop in Hr. destruct Hr as [H1 H2].
    rewrite run_seq. apply (run_one_line r1 H1); [exact Hs|].
    intros m1 s1 c1 Hs1. apply (IH2 H2). exact Hs1.
Qed.

(** C9: a string with a line feed before its last character is not matched
    by the pattern, no host is captured, and [_string_to_identity] raises
    (the [AttributeError] of [m.groupdict()] on [None]) instead of
    returning an identity. *)
Theorem string_to_identity_no_match (y z : text) :
  z <> [] ->
  match_ _identity_regexp (y ++ newline :: z) = None
  /\ _string_to_identity (y ++ newline :: z) = Raise AttributeError.
Proof.
  intros Hz.
  assert (E : match_ _identity_regexp (y ++ newline :: z) = None).
  { unfold match_. apply run_closed; [reflexivity|].
    exists y, z. split; [reflexivity|exact Hz]. }
  split; [exact E|]. unfold _string_to_identity. rewrite E. reflexivity.
Qed.

Lemma string_to_identity_no_match_witness :
  match_ _identity_regexp (str "a" ++ newline :: str "b") = None
  /\ _string_to_identity (str "a" ++ newline :: str "b")
     = Raise AttributeError.
Proof.
  apply (string_to_identity_no_match (str "a") (str "b")). discriminate.
Defined.

(** *** Strings the pattern does match *)

Lemma star_lazy_some {X : Type} (k : cls) (s : text)
    (K : text -> text -> option X) :
  (exists y z, s = y ++ z /\ forallb (cls_match k) y = true
               /\ K y z <> None) ->
  star_lazy k s K <> None.
Proof.
  revert K. induction s as [|a s IH]; intros K (y & z & E & Hy & HK).
  - symmetry in E. apply app_eq_nil in E. destruct E as [-> ->].
    cbn [star_lazy]. destruct (K [] []); [discriminate|contradiction].
  - cbn [star_lazy]. destruct (K [] (a :: s)) eqn:E0; [discriminate|].
    destruct y as [|b y]; cbn [app] in E.
    + subst z. contradiction.
    + injection E as <- ->. cbn [forallb] in Hy.
      apply andb_prop in Hy. destruct Hy as [Ha Hy]. rewrite Ha.
      apply IH. exists y, z. auto.
Qed.

Lemma one_line_split (s : text) :
  ~ inner_newline s ->
  exists body tl, s = body ++ tl /\ forallb (cls_match CDot) body = true
                  /\ at_eol tl = true.
Proof.
  induction s as [|a s IH]; intros Hs.
  - exists [], []. auto.
  - destruct (Ascii.eqb a newline) eqn:Ea.
    + apply Ascii.eqb_eq in Ea. subst a. destruct s as [|b s].
      * exists [], [newline]. auto.
      * exfalso. apply Hs. exists [], (b :: s). split; [reflexivity|].
        discriminate.
    + destruct IH as (body & tl & -> & Hb & Ht).
      * intros (y & z & -> & Hz). apply Hs. exists (a :: y), z. auto.
      * exists (a :: body), tl. cbn [forallb cls_match app]. rewrite Ea.
        auto.
Qed.

(** Every string without an inner line feed is matched: the parser fails on
    strings with an inner line feed only. *)
Lemma string_to_identity_one_line (s : text) :
  ~ inner_newline s -> exists i, _string_to_identity s = Ok i.
Proof.
  intros Hs. destruct (one_line_split s Hs) as (body & tl & -> & Hb & Ht).
  assert (M : match_ _identity_regexp (body ++ tl) <> None).
  { unfold match_, _identity_regexp. rewrite run_seq, run_bol.
    cbn [Nat.eqb].
    unfold re_proto. rewrite run_seq, run_opt.
    match goal with |- match ?r with _ => _ end <> _ =>
      destruct r; [discriminate|] end.
    cbv beta. unfold re_user. rewrite run_seq, run_opt.
    match goal with |- match ?r with _ => _ end <> _ =>
      destruct r; [discriminate|] end.
    cbv beta. unfold re_host. rewrite run_seq, run_group, run_star_lazy.
    apply star_lazy_some. exists body, tl.
    split; [reflexivity|]. split; [exact Hb|].
    unfold re_port. rewrite run_seq, run_opt.
    match goal with |- match ?r with _ => _ end <> _ =>
      destruct r; [discriminate|] end.
    cbv beta. unfold re_path. rewrite run_seq, run_opt.
    match goal with |- match ?r with _ => _ end <> _ =>
      destruct r; [discriminate|] end.
    cbv beta. rewrite run_eol, Ht. discriminate. }
  unfold _string_to_identity.
  destruct (match_ _identity_regexp (body ++ tl)) as [c|];
    [eauto|contradiction].
Qed.

(** Without an expected address no signing request is sent, whatever
    happens on the way. *)
Lemma sign_identity_display_never_signs {VerifyingKey : Type}
    (fmt : formats.t VerifyingKey) (btc : bitcoin.t) (client : device.t)
    (label : text) (_strftime : text -> text) (_urandom : nat -> bytes)
    (log : list request) (q : request) :
  In q (snd (Client.sign_identity fmt btc client label None _strftime
               _urandom log)) ->
  In q log \/ is_sign_request q = false.
Proof.
  unfold Client.sign_identity, bind, lift, send, ret.
  destruct (Client.get_identity label None) as [identity|]; cbn [snd];
    [|auto].
  destruct (_get_address fmt identity) as [n|]; cbn [snd]; [|auto].
  destruct (device.get_public_node client log n None) as [node|];
    cbn [snd].
  - destruct (bitcoin.pubkey_to_address btc node) as [a|]; cbn [snd].
    + destruct (device.get_address client (log ++ [GetPublicNode n None]) n
                  (str "Bitcoin") true); cbn [snd];
        rewrite !in_app_iff; cbn [In];
        intros [[H | [<- | []]] | [<- | []]]; auto.
    + rewrite in_app_iff. cbn [In]. intros [H | [<- | []]]; auto.
  - rewrite in_app_iff. cbn [In]. intros [H | [<- | []]]; auto.
Qed.

(** * Further properties *)

(** ** The matcher: what a match consists of *)

Lemma star_greedy_inv {X : Type} (k : cls) (s : text)
    (K : text -> text -> option X) (v : X) :
  star_greedy k s K = Some v ->
  exists y z, s = y ++ z /\ forallb (cls_match k) y = true /\ K y z = Some v.
Proof.
  revert K. induction s as [|a s IH]; intros K H; cbn [star_greedy] in H.
  - exists [], []. auto.
  - destruct (cls_match k a) eqn:Ea.
    + destruct (star_greedy k s (fun m rest => K (a :: m) rest)) as [w|] eqn:E.
      * injection H as <-. destruct (IH _ E) as (y & z & -> & Hy & HK).
        exists (a :: y), z. cbn [forallb app]. rewrite Ea. auto.
      * exists [], (a :: s). auto.
    + exists [], (a :: s). auto.
Qed.

Lemma star_lazy_inv {X : Type} (k : cls) (s : text)
    (K : text -> text -> option X) (v : X) :
  star_lazy k s K = Some v ->
  exists y z, s = y ++ z /\ forallb (cls_match k) y = true /\ K y z = Some v.
Proof.
  revert K. induction s as [|a s IH]; intros K H; cbn [star_lazy] in H.
  - destruct (K [] []) eqn:E; [|discriminate].
    exists [], []. rewrite E. auto.
  - destruct (K [] (a :: s)) eqn:E.
    + exists [], (a :: s). rewrite E. auto.
    + destruct (cls_match k a) eqn:Ea; [|discriminate].
      destruct (IH _ H) as (y & z & -> & Hy & HK).
      exists (a :: y), z. cbn [forallb app]. rewrite Ea. auto.
Qed.

Lemma tail_user_app (user_ : option text) (rest tl : text) :
  tail_user user_ rest ++ tl = tail_user user_ (rest ++ tl).
Proof.
  destruct user_; cbn [tail_user]; rewrite <- ?app_assoc; reflexivity.
Qed.

Lemma tail_proto_app (proto_ : option text) (rest tl : text) :
  tail_proto proto_ rest ++ tl = tail_proto proto_ (rest ++ tl).
Proof.
  destruct proto_; cbn [tail_proto]; rewrite <- ?app_assoc; reflexivity.
Qed.

(** The end of the pattern: an optional path, then the end of the string or
    a final line feed. *)
Lemma run_path_inv (K : text -> text -> caps -> option caps) (pos : nat)
    (s : text) (c v : caps) :
  accepting K ->
  run (Seq re_path Eol) pos s c K = Some v ->
  exists path_ tl,
    s = tail_path path_ ++ tl /\ at_eol tl = true
    /\ path_shape path_ = true /\ v = captured "path" path_ c.
Proof.
  intros HK H. unfold re_path in H.
  rewrite run_seq, run_opt in H.
  match type of H with match ?r with _ => _ end = _ =>
    destruct r as [w|] eqn:E end.
  - injection H as ->.
    rewrite run_group, run_seq, run_lit in E.
    destruct (strip_prefix (str "/") s) as [s'|] eqn:Es; [|discriminate].
    apply strip_prefix_some in Es. subst s. cbv beta in E.
    rewrite run_star in E. apply star_greedy_inv in E.
    destruct E as (y & z & -> & Hy & E).
    rewrite run_eol in E. destruct (at_eol z) eqn:Ez; [|discriminate].
    rewrite HK in E. injection E as <-.
    exists (Some (str "/" ++ y)), z.
    cbn [tail_path captured path_shape str list_ascii_of_string app].
    rewrite Hy. auto.
  - cbv beta in H. rewrite run_eol in H.
    destruct (at_eol s) eqn:Ez; [|discriminate].
    rewrite HK in H. injection H as <-.
    exists None, s. auto.
Qed.

Lemma run_port_inv (K : text -> text -> caps -> option caps) (pos : nat)
    (s : text) (c v : caps) :
  accepting K ->
  run (Seq re_port (Seq re_path Eol)) pos s c K = Some v ->
  exists port_ path_ tl,
    s = tail_port port_ path_ ++ tl /\ at_eol tl = true
    /\ port_shape port_ = true /\ path_shape path_ = true
    /\ v = captured "path" path_ (captured "port" port_ c).
Proof.
  intros HK H. unfold re_port in H.
  rewrite run_seq, run_opt in H.
  match type of H with match ?r with _ => _ end = _ =>
    destruct r as [w|] eqn:E end.
  - injection H as ->.
    rewrite run_seq, run_lit in E.
    destruct (strip_prefix (str ":") s) as [s'|] eqn:Es; [|discriminate].
    apply strip_prefix_some in Es. subst s. cbv beta in E.
    rewrite run_group, run_star in E. apply star_greedy_inv in E.
    destruct E as (y & z & -> & Hy & E).
    apply run_path_inv in E; [|intros m s c0; apply HK].
    destruct E as (path_ & tl & -> & Ht & Hp & ->).
    exists (Some y), path_, tl.
    cbn [tail_port captured port_shape]. rewrite <- !app_assoc. auto 10.
  - cbv beta in H.
    apply run_path_inv in H; [|intros m s0 c0; apply HK].
    destruct H as (path_ & tl & -> & Ht & Hp & ->).
    exists None, path_, tl. auto 10.
Qed.

Lemma run_host_inv (K : text -> text -> caps -> option caps) (pos : nat)
    (s : text) (c v : caps) :
  accepting K ->
  run (Seq re_host (Seq re_port (Seq re_path Eol))) pos s c K = Some v ->
  exists host_ port_ path_ tl,
    s = host_ ++ tail_port port_ path_ ++ tl /\ at_eol tl = true
    /\ forallb (cls_match CDot) host_ = true
    /\ port_shape port_ = true /\ path_shape path_ = true
    /\ v = captured "path" path_
             (captured "port" port_ (("host"%string, host_) :: c)).
Proof.
  intros HK H. unfold re_host in H.
  rewrite run_seq, run_group, run_star_lazy in H.
  apply star_lazy_inv in H. destruct H as (y & z & -> & Hy & H).
  apply run_port_inv in H; [|intros m s c0; apply HK].
  destruct H as (port_ & path_ & tl & -> & Ht & Hpo & Hpa & ->).
  exists y, port_, path_, tl. auto 10.
Qed.

Lemma run_user_inv (K : text -> text -> caps -> option caps) (pos : nat)
    (s : text) (c v : caps) :
  accepting K ->
  run (Seq re_user (Seq re_host (Seq re_port (Seq re_path Eol)))) pos s c K
  = Some v ->
  exists user_ host_ port_ path_ tl,
    s = tail_user user_ (host_ ++ tail_port port_ path_) ++ tl
    /\ at_eol tl = true
    /\ dot_shape user_ = true
    /\ forallb (cls_match CDot) host_ = true
    /\ port_shape port_ = true /\ path_shape path_ = true
    /\ v = captured "path" path_
             (captured "port" port_
                (("host"%string, host_) :: captured "user" user_ c)).
Proof.
  intros HK H. unfold re_user in H.
  rewrite run_seq, run_opt in H.
  match type of H with match ?r with _ => _ end = _ =>
    destruct r as [w|] eqn:E end.
  - injection H as ->.
    rewrite run_seq, run_group, run_star in E. apply star_greedy_inv in E.
    destruct E as (y & z & -> & Hy & E).
    rewrite run_lit in E.
    destruct (strip_prefix (str "@") z) as [s'|] eqn:Es; [|discriminate].
    apply strip_prefix_some in Es. subst z.
    apply run_host_inv in E; [|intros m s c0; apply HK].
    destruct E as (host_ & port_ & path_ & tl & -> & Ht & Hh & Hpo & Hpa & ->).
    exists (Some y), host_, port_, path_, tl.
    cbn [tail_user captured dot_shape]. rewrite <- !app_assoc. auto 10.
  - cbv beta in H.
    apply run_host_inv in H; [|intros m s0 c0; apply HK].
    destruct H as (host_ & port_ & path_ & tl & -> & Ht & Hh & Hpo & Hpa & ->).
    exists None, host_, port_, path_, tl.
    cbn [tail_user captured dot_shape]. rewrite <- !app_assoc. auto 10.
Qed.

(** A match of the whole pattern spells the string: the captured groups,
    with their delimiters, followed by nothing or by one line feed. *)
Lemma match_inv (s : text) (c : caps) :
  match_ _identity_regexp s = Some c ->
  exists p tl,
    s = render p ++ tl /\ at_eol tl = true /\ c = groups p
    /\ dot_shape (p_proto p) = true /\ dot_shape (p_user p) = true
    /\ forallb (cls_match CDot) (p_host p) = true
    /\ port_shape (p_port p) = true /\ path_shape (p_path p) = true.
Proof.
  unfold match_, _identity_regexp. rewrite run_seq, run_bol. cbn [Nat.eqb].
  intros H. unfold re_proto in H. rewrite run_seq, run_opt in H.
  match type of H with match ?r with _ => _ end = _ =>
    destruct r as [w|] eqn:E end.
  - injection H as ->.
    rewrite run_seq, run_group, run_star in E. apply star_greedy_inv in E.
    destruct E as (y & z & -> & Hy & E).
    rewrite run_lit in E.
    destruct (strip_prefix (str "://") z) as [s'|] eqn:Es; [|discriminate].
    apply strip_prefix_some in Es. subst z.
    apply run_user_inv in E; [|intros m s c0; reflexivity].
    destruct E as (user_ & host_ & port_ & path_ & tl & -> & Ht & Hu & Hh
                   & Hpo & Hpa & ->).
    exists (mkParts (Some y) user_ host_ port_ path_), tl.
    unfold render, groups.
    cbn [p_proto p_user p_host p_port p_path tail_proto captured dot_shape].
    rewrite <- !app_assoc. auto 10.
  - cbv beta in H.
    apply run_user_inv in H; [|intros m s0 c0; reflexivity].
    destruct H as (user_ & host_ & port_ & path_ & tl & -> & Ht & Hu & Hh
                   & Hpo & Hpa & ->).
    exists (mkParts None user_ host_ port_ path_), tl.
    unfold render, groups.
    cbn [p_proto p_user p_host p_port p_path tail_proto captured dot_shape].
    auto 10.
Qed.

(** ** The identity codec on arbitrary strings *)

Lemma at_eol_inv (tl : text) : at_eol tl = true -> tl = [] \/ tl = [newline].
Proof.
  destruct tl as [|a [|b tl]]; cbn [at_eol]; intros H;
    [left; reflexivity| |discriminate].
  apply Ascii.eqb_eq in H. subst a. right. reflexivity.
Qed.

(** The identity built from the groups of a match: every group that matched
    the empty string is left out. *)
Lemma identity_type_kept (p : parts) :
  identity_type (groups p)
  = {| proto_f := kept_part (p_proto p);
       user_f := kept_part (p_user p);
       host_f := kept_part (Some (p_host p));
       port_f := kept_part (p_port p);
       path_f := kept_part (p_path p);
       index := 0 |}.
Proof.
  destruct p as [[[|a1 v1]|] [[|a2 v2]|] [|a0 v0] [[|a3 v3]|] [[|a4 v4]|]];
    reflexivity.
Qed.

Lemma identity_to_string_kept (p : parts) :
  _identity_to_string (identity_type (groups p)) = render (kept p).
Proof.
  rewrite identity_type_kept.
  destruct p as [[[|a1 v1]|] [[|a2 v2]|] [|a0 v0] [[|a3 v3]|] [[|a4 v4]|]];
    unfold _identity_to_string, render, kept, proto, user, host, port, path;
    cbn [p_proto p_user p_host p_port p_path kept_part
         proto_f user_f host_f port_f path_f field truthy
         tail_proto tail_user tail_port tail_path];
    rewrite <- ?app_assoc, ?app_nil_r; reflexivity.
Qed.

Lemma inner_newline_or_line (s : text) :
  inner_newline s
  \/ exists body tl, s = body ++ tl /\ forallb (cls_match CDot) body = true
                     /\ at_eol tl = true.
Proof.
  induction s as [|a s IH].
  - right. exists [], []. auto.
  - destruct (Ascii.eqb a newline) eqn:Ea.
    + apply Ascii.eqb_eq in Ea. subst a. destruct s as [|b s].
      * right. exists [], [newline]. auto.
      * left. exists [], (b :: s). split; [reflexivity|discriminate].
    + destruct IH as [(y & z & -> & Hz) | (body & tl & -> & Hb & Ht)].
      * left. exists (a :: y), z. auto.
      * right. exists (a :: body), tl. cbn [forallb cls_match app].
        rewrite Ea. auto.
Qed.

Lemma line_not_inner (body tl : text) :
  forallb (cls_match CDot) body = true -> at_eol tl = true ->
  ~ inner_newline (body ++ tl).
Proof.
  intros Hb Ht Hin.
  assert (Hn : ~ In newline body).
  { intros H. rewrite forallb_forall in Hb. specialize (Hb _ H).
    cbn [cls_match] in Hb. rewrite Ascii.eqb_refl in Hb. discriminate. }
  apply inner_newline_strip in Hin; [|exact Hn].
  apply inner_newline_not_eol in Hin. congruence.
Qed.

(** X1: [_string_to_identity] raises exactly on the strings that hold a
    line feed before their last character, the exception is the
    [AttributeError] of [m.groupdict()] on [None], and every other string
    yields an identity. *)
Theorem string_to_identity_fails_iff (s : text) :
  (_string_to_identity s = Raise AttributeError <-> inner_newline s)
  /\ (forall e, _string_to_identity s = Raise e -> e = AttributeError)
  /\ ((exists i, _string_to_identity s = Ok i) <-> ~ inner_newline s).
Proof.
  assert (Bad : inner_newline s -> _string_to_identity s = Raise AttributeError).
  { intros H. unfold _string_to_identity, match_.
    rewrite (run_closed _identity_regexp eq_refl 0 s [] _ H). reflexivity. }
  assert (Good : ~ inner_newline s -> exists i, _string_to_identity s = Ok i)
    by apply string_to_identity_one_line.
  split; [|split].
  - split; [|exact Bad]. intros H.
    destruct (inner_newline_or_line s) as [Hin | (body & tl & -> & Hb & Ht)];
      [exact Hin|].
    destruct (Good (line_not_inner body tl Hb Ht)) as (i & Hi). congruence.
  - intros e. unfold _string_to_identity.
    destruct (match_ _identity_regexp s); [discriminate|].
    intros H. injection H as <-. reflexivity.
  - split; [|exact Good]. intros (i & Hi) Hin. rewrite (Bad Hin) in Hi.
    discriminate.
Qed.

(** X3: whatever the string, a parsed identity spells it: the string is the
    captured protocol, user, host, port and path with their delimiters,
    followed by nothing or one line feed, and the identity formats to the
    same text without the delimiters of the groups that matched the empty
    string and without the line feed. *)
Theorem string_to_identity_spells (s : text) (i : Identity) :
  _string_to_identity s = Ok i ->
  exists p tl,
    s = render p ++ tl /\ (tl = [] \/ tl = [newline])
    /\ i = identity_type (groups p)
    /\ _identity_to_string i = render (kept p).
Proof.
  unfold _string_to_identity.
  destruct (match_ _identity_regexp s) as [c|] eqn:E; [|discriminate].
  intros H. injection H as <-.
  destruct (match_inv s c E) as (p & tl & -> & Ht & -> & _).
  exists p, tl. split; [reflexivity|]. split; [exact (at_eol_inv tl Ht)|].
  split; [reflexivity|]. apply identity_to_string_kept.
Qed.

Lemma string_to_identity_spells_witness :
  exists p tl,
    str "://alice@host:/x" ++ [newline] = render p ++ tl
    /\ (tl = [] \/ tl = [newline])
    /\ {| proto_f := None; user_f := Some (str "alice");
          host_f := Some (str "host"); port_f := None;
          path_f := Some (str "/x"); index := 0 |}
       = identity_type (groups p)
    /\ _identity_to_string
         {| proto_f := None; user_f := Some (str "alice");
            host_f := Some (str "host"); port_f := None;
            path_f := Some (str "/x"); index := 0 |}
       = render (kept p).
Proof.
  apply (string_to_identity_spells (str "://alice@host:/x" ++ [newline])).
  reflexivity.
Defined.

Lemma lookup_groups (p : parts) :
  lookup "proto" (groups p) = p_proto p
  /\ lookup "user" (groups p) = p_user p
  /\ lookup "port" (groups p) = p_port p
  /\ lookup "path" (groups p) = p_path p.
Proof.
  destruct p as [[v1|] [v2|] v0 [v3|] [v4|]]; repeat split; reflexivity.
Qed.

Lemma kept_part_id (f : option text) : f <> Some [] -> kept_part f = f.
Proof. destruct f as [[|a v]|]; intros H; [contradiction| |]; reflexivity. Qed.

(** X4: the round trip holds for every string, whatever its characters,
    whose match captured no empty protocol, user or port and which holds
    no line feed: formatting the parsed identity gives the string back. *)
Theorem identity_roundtrip_general (s : text) (c : caps) :
  match_ _identity_regexp s = Some c ->
  lookup "proto" c <> Some [] ->
  lookup "user" c <> Some [] ->
  lookup "port" c <> Some [] ->
  ~ In newline s ->
  _string_to_identity s = Ok (identity_type c)
  /\ _identity_to_string (identity_type c) = s.
Proof.
  intros E H1 H2 H3 Hn.
  split; [unfold _string_to_identity; rewrite E; reflexivity|].
  destruct (match_inv s c E) as (p & tl & -> & Ht & -> & _ & _ & _ & _ & Hpa).
  destruct (lookup_groups p) as (L1 & L2 & L3 & _).
  rewrite L1 in H1. rewrite L2 in H2. rewrite L3 in H3.
  rewrite identity_to_string_kept.
  assert (Ek : kept p = p).
  { destruct p as [pr us ho po pa]. unfold kept.
    cbn [p_proto p_user p_host p_port p_path] in *.
    rewrite !kept_part_id; try assumption; [reflexivity|].
    destruct pa as [[|a v]|]; [discriminate Hpa| |]; discriminate. }
  rewrite Ek.
  destruct (at_eol_inv tl Ht) as [-> | ->]; [rewrite app_nil_r; reflexivity|].
  exfalso. apply Hn. apply in_or_app. right. left. reflexivity.
Qed.

Lemma identity_roundtrip_general_witness :
  _string_to_identity (str "a://b://c@d@e:1:2/x:y")
  = Ok (identity_type
          [("path"%string, str "/x:y"); ("port"%string, str "2");
           ("host"%string, str "e:1"); ("user"%string, str "c@d");
           ("proto"%string, str "a://b")])
  /\ _identity_to_string
       (identity_type
          [("path"%string, str "/x:y"); ("port"%string, str "2");
           ("host"%string, str "e:1"); ("user"%string, str "c@d");
           ("proto"%string, str "a://b")])
     = str "a://b://c@d@e:1:2/x:y".
Proof.
  apply (identity_roundtrip_general (str "a://b://c@d@e:1:2/x:y"));
    [reflexivity | discriminate | discriminate | discriminate |].
  cbn. intros H. repeat (destruct H as [H | H]; [discriminate H|]). exact H.
Defined.

Lemma dot_no_newline (v : text) :
  forallb (cls_match CDot) v = true -> ~ In newline v.
Proof.
  intros Hv H. rewrite forallb_forall in Hv. specialize (Hv _ H).
  cbn [cls_match] in Hv. rewrite Ascii.eqb_refl in Hv. discriminate.
Qed.

Lemma kept_part_some (f : option text) (v : text) :
  kept_part f = Some v -> f = Some v /\ v <> [].
Proof.
  destruct f as [[|a w]|]; cbn [kept_part]; intros H; try discriminate.
  injection H as <-. split; [reflexivity|discriminate].
Qed.

(** X2: a parsed identity has index 0 and no empty field (a field is absent
    or not empty), no field holds a line feed, its port consists of word
    characters and its path starts with [/]. *)
Theorem string_to_identity_fields (s : text) (i : Identity) :
  _string_to_identity s = Ok i ->
  index i = 0
  /\ (forall f v,
        In f [proto_f i; user_f i; host_f i; port_f i; path_f i] ->
        f = Some v -> v <> [] /\ ~ In newline v)
  /\ (forall o, port_f i = Some o -> forallb is_word o = true)
  /\ (forall t, path_f i = Some t -> exists r, t = "/"%char :: r).
Proof.
  unfold _string_to_identity.
  destruct (match_ _identity_regexp s) as [c|] eqn:E; [|discriminate].
  intros H. injection H as <-.
  destruct (match_inv s c E)
    as (p & tl & _ & _ & -> & Hpr & Hus & Hho & Hpo & Hpa).
  rewrite identity_type_kept.
  cbn [index proto_f user_f host_f port_f path_f].
  split; [reflexivity|]. split; [|split].
  - intros f v Hf Hv. subst f.
    cbn [In] in Hf.
    destruct Hf as [Hf | [Hf | [Hf | [Hf | [Hf | []]]]]];
      apply kept_part_some in Hf; destruct Hf as [Hf Hne];
      (split; [exact Hne|]).
    + rewrite Hf in Hpr. apply dot_no_newline, Hpr.
    + rewrite Hf in Hus. apply dot_no_newline, Hus.
    + injection Hf as <-. apply dot_no_newline, Hho.
    + rewrite Hf in Hpo. cbn [port_shape] in Hpo. intros Hin.
      rewrite forallb_forall in Hpo. specialize (Hpo _ Hin).
      discriminate Hpo.
    + rewrite Hf in Hpa. destruct v as [|a v]; [contradiction|].
      cbn [path_shape] in Hpa. apply andb_prop in Hpa.
      destruct Hpa as [Ha Hv]. apply Ascii.eqb_eq in Ha. subst a.
      intros [H | H]; [discriminate H|]. exact (dot_no_newline v Hv H).
  - intros o Ho. apply kept_part_some in Ho. destruct Ho as [Ho _].
    rewrite Ho in Hpo. exact Hpo.
  - intros t Ht. apply kept_part_some in Ht. destruct Ht as [Ht Hne].
    rewrite Ht in Hpa. destruct t as [|a v]; [contradiction|].
    cbn [path_shape] in Hpa. apply andb_prop in Hpa.
    destruct Hpa as [Ha _]. apply Ascii.eqb_eq in Ha. subst a. eauto.
Qed.

Lemma string_to_identity_fields_witness :
  index Sample.alice = 0
  /\ (forall f v,
        In f [proto_f Sample.alice; user_f Sample.alice; host_f Sample.alice;
              port_f Sample.alice; path_f Sample.alice] ->
        f = Some v -> v <> [] /\ ~ In newline v)
  /\ (forall o, port_f Sample.alice = Some o -> forallb is_word o = true)
  /\ (forall t, path_f Sample.alice = Some t -> exists r, t = "/"%char :: r).
Proof.
  apply (string_to_identity_fields (str "ssh://alice@example.com/")).
  reflexivity.
Defined.

Lemma string_to_identity_fails_iff_witness :
  _string_to_identity (str "a" ++ newline :: str "b") = Raise AttributeError.
Proof.
  apply (proj1 (string_to_identity_fails_iff (str "a" ++ newline :: str "b"))).
  exists (str "a"), (str "b"). split; [reflexivity|discriminate].
Defined.

(** ** Labels, protocol override and key paths *)

Lemma string_to_identity_render (p : parts) :
  valid p = true -> _string_to_identity (render p) = Ok (identity_of p).
Proof.
  intros Hv. unfold _string_to_identity.
  rewrite (match_render p Hv), (identity_type_groups p Hv). reflexivity.
Qed.

Lemma valid_with_proto (p : parts) (protocol : text) :
  valid p = true -> present plain (Some protocol) = true ->
  valid (with_proto p protocol) = true.
Proof.
  unfold valid, with_proto. cbn [p_proto p_user p_host p_port p_path].
  intros Hv Hp.
  apply andb_prop in Hv. destruct Hv as [Hv H5].
  apply andb_prop in Hv. destruct Hv as [Hv H4].
  apply andb_prop in Hv. destruct Hv as [Hv H3].
  apply andb_prop in Hv. destruct Hv as [_ H2].
  rewrite Hp, H2, H3, H4, H5. reflexivity.
Qed.

(** X5: the protocol override of [get_identity] is the same as writing the
    protocol in the label: for a label of valid components and a non-empty
    plain protocol, [get_identity label protocol] is the identity parsed
    from the label with its protocol part replaced by [protocol://], and it
    formats to that label. *)
Theorem get_identity_override (p : parts) (protocol : text) :
  valid p = true ->
  present plain (Some protocol) = true ->
  Client.get_identity (render p) (Some protocol)
  = Client.get_identity (render (with_proto p protocol)) None
  /\ Client.get_identity (render p) (Some protocol)
     = Ok (identity_of (with_proto p protocol))
  /\ _identity_to_string (identity_of (with_proto p protocol))
     = protocol ++ str "://"
         ++ tail_user (p_user p) (p_host p ++ tail_port (p_port p) (p_path p)).
Proof.
  intros Hv Hp.
  pose proof (valid_with_proto p protocol Hv Hp) as Hv'.
  assert (E1 : Client.get_identity (render p) (Some protocol)
               = Ok (identity_of (with_proto p protocol))).
  { unfold Client.get_identity. rewrite (string_to_identity_render p Hv).
    reflexivity. }
  assert (E2 : Client.get_identity (render (with_proto p protocol)) None
               = Ok (identity_of (with_proto p protocol))).
  { unfold Client.get_identity.
    rewrite (string_to_identity_render _ Hv'). reflexivity. }
  split; [congruence|]. split; [exact E1|].
  rewrite (identity_to_string_of _ Hv'). unfold render, with_proto.
  cbn [p_proto p_user p_host p_port p_path tail_proto].
  reflexivity.
Qed.

Lemma get_identity_override_witness :
  Client.get_identity (str "alice@example.com") (Some (str "ssh"))
  = Client.get_identity (str "ssh://alice@example.com") None
  /\ Client.get_identity (str "alice@example.com") (Some (str "ssh"))
     = Ok {| proto_f := Some (str "ssh"); user_f := Some (str "alice");
             host_f := Some (str "example.com"); port_f := None;
             path_f := None; index := 0 |}
  /\ _identity_to_string
       {| proto_f := Some (str "ssh"); user_f := Some (str "alice");
          host_f := Some (str "example.com"); port_f := None;
          path_f := None; index := 0 |}
     = str "ssh://alice@example.com".
Proof.
  apply (get_identity_override
           {| p_proto := None; p_user := Some (str "alice");
              p_host := str "example.com"; p_port := None;
              p_path := None |} (str "ssh"));
    reflexivity.
Defined.

(** X6: an empty override is not the same as no override: it erases the
    protocol of the label, so that the identity formats without it and is
    refused by the [proto == 'ssh'] assertions. *)
Theorem get_identity_empty_override (p : parts) :
  valid p = true ->
  exists i,
    Client.get_identity (render p) (Some []) = Ok i
    /\ proto i = []
    /\ _identity_to_string i
       = tail_user (p_user p) (p_host p ++ tail_port (p_port p) (p_path p))
    /\ text_eqb (proto i) (str "ssh") = false.
Proof.
  intros Hv. exists (Client.set_proto (identity_of p) []).
  split.
  - unfold Client.get_identity. rewrite (string_to_identity_render p Hv).
    reflexivity.
  - split; [reflexivity|]. split; [|reflexivity].
    destruct p as [proto_ user_ host_ port_ path_].
    unfold valid in Hv. cbn [p_proto p_user p_host p_port p_path] in *.
    apply andb_prop in Hv. destruct Hv as [Hv Hpa].
    apply andb_prop in Hv. destruct Hv as [Hv Hpo].
    apply andb_prop in Hv. destruct Hv as [Hv Hh].
    apply andb_prop in Hv. destruct Hv as [_ Hu].
    unfold _identity_to_string, Client.set_proto, identity_of,
      proto, user, host, port, path.
    cbn [p_proto p_user p_host p_port p_path
         proto_f user_f host_f port_f path_f].
    assert (Hhost : field (if truthy host_ then Some host_ else None) = host_)
      by (destruct host_; reflexivity).
    rewrite Hhost.
    destruct (present_inv _ _ Hu) as [-> | (a2 & v2 & -> & _)];
      destruct (present_inv _ _ Hpo) as [-> | (a3 & v3 & -> & _)];
      destruct (valid_path_inv _ Hpa) as [-> | (v4 & -> & _)];
      cbn [field truthy tail_user tail_port tail_path app];
      rewrite <- ?app_assoc, ?app_nil_r; reflexivity.
Qed.

Lemma get_identity_empty_override_witness :
  exists i,
    Client.get_identity (str "ssh://alice@example.com") (Some []) = Ok i
    /\ proto i = []
    /\ _identity_to_string i = str "alice@example.com"
    /\ text_eqb (proto i) (str "ssh") = false.
Proof.
  apply (get_identity_empty_override
           {| p_proto := Some (str "ssh"); p_user := Some (str "alice");
              p_host := str "example.com"; p_port := None;
              p_path := None |}).
  reflexivity.
Defined.

(** X7: the key path of a parsed label depends on the text of the label
    only: for a label of valid ASCII components it is [13] and the first
    four little-endian words of the digest of four zero bytes (the index is
    0) followed by the label itself, each with bit 31 set. *)
Theorem get_address_of_label {VerifyingKey : Type}
    (fmt : formats.t VerifyingKey) (p : parts) :
  valid p = true ->
  Forall is_ascii (render p) ->
  (forall m, (16 <= List.length (formats.hashfunc fmt m))%nat) ->
  let d := formats.hashfunc fmt (repeat x00 4 ++ raw (render p)) in
  rbind (Client.get_identity (render p) None) (_get_address fmt)
  = Ok [Z.lor hardened 13;
        Z.lor hardened (le_word d 0); Z.lor hardened (le_word d 4);
        Z.lor hardened (le_word d 8); Z.lor hardened (le_word d 12)].
Proof.
  intros Hv Ha Hh d. unfold Client.get_identity.
  rewrite (string_to_identity_render p Hv). cbn [rbind].
  unfold _get_address.
  change (pack_L (index (identity_of p))) with (Ok (repeat x00 4)).
  cbn [rbind]. rewrite (identity_to_string_of p Hv).
  rewrite (encode_ascii_ok _ Ha). cbn [rbind].
  rewrite recv_LLLL_ok by apply Hh. reflexivity.
Qed.

Lemma get_address_of_label_witness :
  rbind (Client.get_identity (str "ssh://alice@example.com/") None)
    (_get_address Sample.fmt)
  = Ok [Z.lor hardened 13;
        Z.lor hardened
          (le_word (Sample.digest32
                      (repeat x00 4 ++ raw (str "ssh://alice@example.com/")))
             0);
        Z.lor hardened
          (le_word (Sample.digest32
                      (repeat x00 4 ++ raw (str "ssh://alice@example.com/")))
             4);
        Z.lor hardened
          (le_word (Sample.digest32
                      (repeat x00 4 ++ raw (str "ssh://alice@example.com/")))
             8);
        Z.lor hardened
          (le_word (Sample.digest32
                      (repeat x00 4 ++ raw (str "ssh://alice@example.com/")))
             12)].
Proof.
  apply (get_address_of_label Sample.fmt
           {| p_proto := Some (str "ssh"); p_user := Some (str "alice");
              p_host := str "example.com"; p_port := None;
              p_path := Some (str "/") |}).
  - reflexivity.
  - repeat constructor.
  - intros m. unfold Sample.fmt, Sample.digest32, Sample.zeros.
    cbn [formats.hashfunc]. rewrite length_firstn, length_app, repeat_length.
    lia.
Defined.

(** ** The session orchestrator: guards and requests *)

Lemma text_eqb_neq (a b : text) : a <> b -> text_eqb a b = false.
Proof. unfold text_eqb. destruct (list_eq_dec ascii_dec a b); congruence. Qed.

(** X8: [get_public_key] refuses an identity whose protocol is not [ssh]
    with [AssertionError], before the key path is derived and before
    anything is sent to the device. *)
Theorem get_public_key_not_ssh {VerifyingKey : Type}
    (fmt : formats.t VerifyingKey) (client : device.t)
    (identity : Identity) (log : list request) :
  proto identity <> str "ssh" ->
  Client.get_public_key fmt client identity log = (Raise AssertionError, log).
Proof.
  intros H. unfold Client.get_public_key, bind, lift.
  rewrite (text_eqb_neq _ _ H). reflexivity.
Qed.

Lemma get_public_key_not_ssh_witness :
  Client.get_public_key Sample.fmt (Sample.dev Sample.good)
    {| proto_f := None; user_f := None; host_f := Some (str "example.com");
       port_f := None; path_f := None; index := 0 |} []
  = (Raise AssertionError, []).
Proof.
  apply (get_public_key_not_ssh Sample.fmt (Sample.dev Sample.good)).
  discriminate.
Defined.

(** X9: what [get_public_key] returns is the export, labelled with the
    formatted identity, of the key the device answered to one public-node
    query for the key path of the identity on the curve [nist256p1]. *)
Theorem get_public_key_returns {VerifyingKey : Type}
    (fmt : formats.t VerifyingKey) (client : device.t)
    (identity : Identity) (log log' : list request) (key : text) :
  Client.get_public_key fmt client identity log = (Ok key, log') ->
  exists n pubkey,
    proto identity = str "ssh"
    /\ _get_address fmt identity = Ok n
    /\ device.get_public_node client log n (Some Client.curve_name)
       = Ok pubkey
    /\ formats.export_public_key fmt pubkey (_identity_to_string identity)
       = Ok key
    /\ log' = log ++ [GetPublicNode n (Some Client.curve_name)].
Proof.
  unfold Client.get_public_key, bind, lift, send.
  destruct (text_eqb (proto identity) (str "ssh")) eqn:Es; cbn [assert];
    [|discriminate].
  apply text_eqb_eq in Es.
  destruct (_get_address fmt identity) as [n|e] eqn:En; [|discriminate].
  destruct (device.get_public_node client log n (Some Client.curve_name))
    as [pubkey|e] eqn:Ep; [|discriminate].
  intros H. injection H as H <-. exists n, pubkey. auto 10.
Qed.

Lemma get_public_key_returns_witness :
  exists n pubkey,
    proto Sample.alice = str "ssh"
    /\ _get_address Sample.fmt Sample.alice = Ok n
    /\ device.get_public_node (Sample.dev Sample.good) [] n
         (Some Client.curve_name) = Ok pubkey
    /\ formats.export_public_key Sample.fmt pubkey
         (_identity_to_string Sample.alice)
       = Ok (str "ssh://alice@example.com/")
    /\ [GetPublicNode
          [2147483661; 2147483648; 3127407475; 3965792047; 3227870057]
          (Some Client.curve_name)]
       = [] ++ [GetPublicNode n (Some Client.curve_name)].
Proof.
  apply (get_public_key_returns Sample.fmt (Sample.dev Sample.good)
           Sample.alice []).
  reflexivity.
Defined.

(** X12: whatever happens, [get_public_key] sends nothing or exactly one
    request, the public-node query for the derived key path, never a
    signing request; it is sent only for an [ssh] identity whose key path
    could be derived. *)
Theorem get_public_key_requests {VerifyingKey : Type}
    (fmt : formats.t VerifyingKey) (client : device.t)
    (identity : Identity) (log : list request) :
  snd (Client.get_public_key fmt client identity log) = log
  \/ exists n,
       proto identity = str "ssh"
       /\ _get_address fmt identity = Ok n
       /\ snd (Client.get_public_key fmt client identity log)
          = log ++ [GetPublicNode n (Some Client.curve_name)].
Proof.
  unfold Client.get_public_key, bind, lift, send.
  destruct (text_eqb (proto identity) (str "ssh")) eqn:Es; cbn [assert];
    [|left; reflexivity].
  apply text_eqb_eq in Es.
  destruct (_get_address fmt identity) as [n|e] eqn:En; [|left; reflexivity].
  right. exists n. split; [exact Es|]. split; [reflexivity|].
  destruct (device.get_public_node client log n (Some Client.curve_name));
    reflexivity.
Qed.

(** X10: [sign_ssh_challenge] checks the protocol first and parses the blob
    before it talks to the device: an identity that is not [ssh] raises
    [AssertionError] whatever the blob, and for an [ssh] identity an error
    of the blob parser is raised as it is; in both cases nothing is sent. *)
Theorem sign_ssh_challenge_guards {VerifyingKey : Type}
    (fmt : formats.t VerifyingKey) (client : device.t)
    (identity : Identity) (blob_ : bytes) (log : list request) :
  (proto identity <> str "ssh" ->
   Client.sign_ssh_challenge fmt client identity blob_ log
   = (Raise AssertionError, log))
  /\ (forall e,
        proto identity = str "ssh" ->
        _parse_ssh_blob fmt blob_ = Raise e ->
        Client.sign_ssh_challenge fmt client identity blob_ log
        = (Raise e, log)).
Proof.
  split.
  - intros H. unfold Client.sign_ssh_challenge, bind, lift.
    rewrite (text_eqb_neq _ _ H). reflexivity.
  - intros e Hs He. unfold Client.sign_ssh_challenge, bind, lift.
    rewrite Hs, text_eqb_refl, He. reflexivity.
Qed.

Lemma sign_ssh_challenge_guards_witness :
  Client.sign_ssh_challenge Sample.fmt (Sample.dev Sample.good)
    {| proto_f := Some (str "http"); user_f := None;
       host_f := Some (str "example.com"); port_f := None; path_f := None;
       index := 0 |} Sample.login []
  = (Raise AssertionError, [])
  /\ Client.sign_ssh_challenge Sample.fmt (Sample.dev Sample.good)
       Sample.alice (firstn 7 Sample.login) []
     = (Raise FrameError, []).
Proof.
  split.
  - apply (proj1 (sign_ssh_challenge_guards Sample.fmt (Sample.dev Sample.good)
                    _ Sample.login [])).
    discriminate.
  - apply (proj2 (sign_ssh_challenge_guards Sample.fmt (Sample.dev Sample.good)
                    Sample.alice (firstn 7 Sample.login) []));
      reflexivity.
Defined.

(** X11: whatever happens, [sign_ssh_challenge] sends nothing or exactly one
    request, the signing request for this identity with the blob as hidden
    challenge, the path of the identity as visual challenge and the curve
    [nist256p1]; and it is sent only for an [ssh] identity whose blob parsed
    and holds a user. *)
Theorem sign_ssh_challenge_requests {VerifyingKey : Type}
    (fmt : formats.t VerifyingKey) (client : device.t)
    (identity : Identity) (blob_ : bytes) (log : list request) :
  snd (Client.sign_ssh_challenge fmt client identity blob_ log) = log
  \/ (snd (Client.sign_ssh_challenge fmt client identity blob_ log)
      = log ++ [SignIdentity identity blob_ (path identity)
                  (Some Client.curve_name)]
      /\ proto identity = str "ssh"
      /\ blob_ <> []
      /\ exists msg u,
           _parse_ssh_blob fmt blob_ = Ok msg
           /\ getitem "user" msg = Ok u).
Proof.
  unfold Client.sign_ssh_challenge, bind, lift, send, ret.
  destruct (text_eqb (proto identity) (str "ssh")) eqn:Es; cbn [assert];
    [|left; reflexivity].
  apply text_eqb_eq in Es.
  destruct (_parse_ssh_blob fmt blob_) as [msg|] eqn:Em; [|left; reflexivity].
  destruct (getitem "user" msg) as [u|] eqn:Eu; [|left; reflexivity].
  right.
  assert (Hb : blob_ <> []).
  { intros ->. cbn in Em. injection Em as <-. discriminate Eu. }
  split; [|eauto 6].
  destruct (device.sign_identity client log identity blob_ (path identity)
              (Some Client.curve_name)) as [signed|]; [|reflexivity].
  destruct (formats.decompress_pubkey fmt (public_key signed) None)
    as [vk|]; [|reflexivity].
  destruct (formats.serialize_verifying_key fmt vk) as [pkb|]; [|reflexivity].
  destruct (rbind (getitem "public_key" msg) key_blob) as [claimed|];
    [|reflexivity].
  destruct (assert (bytes_eqb pkb claimed)); [|reflexivity].
  destruct (assert (Nat.eqb (List.length (signature signed)) 65));
    [|reflexivity].
  destruct (Client.first_byte (signature signed)) as [marker|];
    [|reflexivity].
  destruct (assert (Byte.eqb marker x00)); reflexivity.
Qed.

Lemma sign_ssh_challenge_returns_checked_witness :
  exists msg signed vk claimed,
    _parse_ssh_blob Sample.fmt Sample.login = Ok msg
    /\ device.sign_identity (Sample.dev Sample.good) [] Sample.alice
         Sample.login (path Sample.alice) (Some Client.curve_name) = Ok signed
    /\ formats.decompress_pubkey Sample.fmt (public_key signed) None = Ok vk
    /\ formats.serialize_verifying_key Sample.fmt vk = Ok claimed
    /\ rbind (getitem "public_key" msg) key_blob = Ok claimed
    /\ List.length (signature signed) = 65%nat
    /\ nth 0 (signature signed) x01 = x00
    /\ (0, 0) = parse_signature (signature signed)
    /\ [ssh_request Sample.alice Sample.login]
       = [] ++ [ssh_request Sample.alice Sample.login].
Proof.
  apply (sign_ssh_challenge_returns_checked Sample.fmt (Sample.dev Sample.good)
           Sample.alice Sample.login [] _ (0, 0)).
  reflexivity.
Defined.

(** ** The generic signing flow: what is signed and what is returned *)

Lemma validate_signature_ok_inv {VerifyingKey : Type}
    (fmt : formats.t VerifyingKey) (signed : SignedIdentity)
    (digest : bytes) (curve : ecdsa_curve) (n : Z) :
  _validate_signature fmt signed digest curve = Ok n ->
  exists vk,
    formats.decompress_pubkey fmt (public_key signed) (Some curve) = Ok vk
    /\ ((n = 0
         /\ exists u,
              formats.verify_digest fmt vk
                (parse_signature (signature signed)) digest = Ok u)
        \/ (n = 1
            /\ formats.verify_digest fmt vk
                 (parse_signature (signature signed)) digest
               = Raise BadSignatureError)).
Proof.
  unfold _validate_signature.
  destruct (formats.decompress_pubkey fmt (public_key signed) (Some curve))
    as [vk|e0]; cbn [rbind]; [|discriminate].
  destruct (formats.verify_digest fmt vk
              (parse_signature (signature signed)) digest) as [u|e1] eqn:E.
  - intros H. injection H as <-. exists vk. split; [reflexivity|].
    left. eauto.
  - intros H. exists vk. split; [reflexivity|]. right.
    destruct e1; try discriminate H. injection H as <-. auto.
Qed.

(** X13: [_validate_signature] returns 0 only when the key was decompressed
    on the given curve and [verify_digest] accepted the pair
    [parse_signature] extracts, 1 only when it raised [BadSignatureError],
    and nothing else; the errors it raises are those of the decompression
    and those of the verification other than [BadSignatureError]. *)
Theorem validate_signature_sound {VerifyingKey : Type}
    (fmt : formats.t VerifyingKey) (signed : SignedIdentity)
    (digest : bytes) (curve : ecdsa_curve) :
  (forall n,
      _validate_signature fmt signed digest curve = Ok n ->
      exists vk,
        formats.decompress_pubkey fmt (public_key signed) (Some curve) = Ok vk
        /\ ((n = 0
             /\ exists u,
                  formats.verify_digest fmt vk
                    (parse_signature (signature signed)) digest = Ok u)
            \/ (n = 1
                /\ formats.verify_digest fmt vk
                     (parse_signature (signature signed)) digest
                   = Raise BadSignatureError)))
  /\ (forall e,
        _validate_signature fmt signed digest curve = Raise e ->
        formats.decompress_pubkey fmt (public_key signed) (Some curve)
        = Raise e
        \/ exists vk,
             formats.decompress_pubkey fmt (public_key signed) (Some curve)
             = Ok vk
             /\ formats.verify_digest fmt vk
                  (parse_signature (signature signed)) digest = Raise e
             /\ e <> BadSignatureError).
Proof.
  split; [intros n; apply validate_signature_ok_inv|].
  unfold _validate_signature.
  destruct (formats.decompress_pubkey fmt (public_key signed) (Some curve))
    as [vk|e0]; cbn [rbind].
  - destruct (formats.verify_digest fmt vk
                (parse_signature (signature signed)) digest) as [u|e1] eqn:E;
      [discriminate|].
    intros e H. right. exists vk. split; [reflexivity|].
    destruct e1; try discriminate H; injection H as <-;
      (split; [exact E|discriminate]).
  - intros e H. left. injection H as <-. reflexivity.
Qed.

Lemma parse_signature_marker (a b : byte) (rest : bytes) :
  parse_signature (a :: rest) = parse_signature (b :: rest).
Proof. reflexivity. Qed.

(** X14: the generic flow does not look at byte 0 of the signature, which
    [sign_ssh_challenge] requires to be zero: two answers that differ in
    that byte only are validated alike. *)
Theorem validate_signature_ignores_marker {VerifyingKey : Type}
    (fmt : formats.t VerifyingKey) (s1 s2 : SignedIdentity)
    (a b : byte) (rest digest : bytes) (curve : ecdsa_curve) :
  public_key s1 = public_key s2 ->
  signature s1 = a :: rest ->
  signature s2 = b :: rest ->
  parse_signature (signature s1) = parse_signature (signature s2)
  /\ _validate_signature fmt s1 digest curve
     = _validate_signature fmt s2 digest curve.
Proof.
  intros Hk H1 H2. unfold _validate_signature.
  rewrite Hk, H1, H2, (parse_signature_marker a b rest). auto.
Qed.

Lemma validate_signature_ignores_marker_witness :
  parse_signature (signature Sample.good)
  = parse_signature
      (signature {| public_key := [x01; x02];
                    signature := x1b :: Sample.zeros 64;
                    address := str "1addr" |})
  /\ _validate_signature Sample.fmt Sample.good [] SECP256k1
     = _validate_signature Sample.fmt
         {| public_key := [x01; x02]; signature := x1b :: Sample.zeros 64;
            address := str "1addr" |} [] SECP256k1.
Proof.
  apply (validate_signature_ignores_marker Sample.fmt Sample.good
           {| public_key := [x01; x02]; signature := x1b :: Sample.zeros 64;
              address := str "1addr" |}
           x00 x1b (Sample.zeros 64) [] SECP256k1);
    reflexivity.
Defined.

Section SignIdentityAll.

Context {VerifyingKey : Type}.
Variable fmt : formats.t VerifyingKey.
Variable btc : bitcoin.t.
Variable client : device.t.
Variable label : text.
Variable expected_address : option text.
Variable _strftime : text -> text.
Variable _urandom : nat -> bytes.
Variable log : list request.

Let visual := _strftime (str "%d/%m/%y %H:%M:%S").
Let hidden := _urandom 64%nat.

Lemma sign_identity_cases :
  (exists a identity n node,
      reaches_signing fmt btc client label expected_address log a identity n node
      /\ Client.sign_identity fmt btc client label expected_address _strftime
           _urandom log
         = (rbind (device.sign_identity client
                     (log ++ [GetPublicNode n None]) identity hidden visual
                     None)
              (fun signed =>
                 rbind (assert (text_eqb a (address signed)))
                   (fun _ =>
                      rbind (assert (bytes_eqb node (public_key signed)))
                        (fun _ =>
                           _validate_signature fmt signed
                             (message_digest fmt btc hidden (raw visual))
                             SECP256k1))),
            (log ++ [GetPublicNode n None])
              ++ [SignIdentity identity hidden visual None]))
  \/ ((forall q,
         In q (snd (Client.sign_identity fmt btc client label
                      expected_address _strftime _urandom log)) ->
         In q log \/ is_sign_request q = false)
      /\ (forall k,
            fst (Client.sign_identity fmt btc client label expected_address
                   _strftime _urandom log) = Ok k ->
            expected_address = None /\ k = 2)).
Proof.
  unfold Client.sign_identity, bind, lift, send, ret.
  fold visual hidden.
  destruct (Client.get_identity label None) as [identity|] eqn:Ei;
    [|right; cbn [fst snd]; split; [auto|discriminate]].
  destruct (_get_address fmt identity) as [n|] eqn:En;
    [|right; cbn [fst snd]; split; [auto|discriminate]].
  destruct (device.get_public_node client log n None) as [node|] eqn:Eno.
  2:{ right. cbn [fst snd]. split; [|discriminate].
      intros q Hq. apply in_app_or in Hq. destruct Hq as [Hq | [<- | []]];
        auto. }
  destruct (bitcoin.pubkey_to_address btc node) as [a|] eqn:Ea.
  2:{ right. cbn [fst snd]. split; [|discriminate].
      intros q Hq. apply in_app_or in Hq. destruct Hq as [Hq | [<- | []]];
        auto. }
  destruct expected_address as [expected|] eqn:Ee.
  - destruct (text_eqb expected a) eqn:Et; cbn [assert].
    + apply text_eqb_eq in Et. subst expected. left.
      exists a, identity, n, node. split; [unfold reaches_signing; auto 10|].
      destruct (device.sign_identity client (log ++ [GetPublicNode n None])
                  identity hidden visual None) as [signed|]; cbn [rbind];
        [|reflexivity].
      destruct (assert (text_eqb a (address signed))); cbn [rbind];
        [|reflexivity].
      destruct (assert (bytes_eqb node (public_key signed))); reflexivity.
    + right. cbn [fst snd]. split; [|discriminate].
      intros q Hq. apply in_app_or in Hq. destruct Hq as [Hq | [<- | []]];
        auto.
  - right. split.
    + intros q.
      destruct (device.get_address client (log ++ [GetPublicNode n None]) n
                  (str "Bitcoin") true); cbn [snd];
        rewrite !in_app_iff; cbn [In];
        intros [[H | [<- | []]] | [<- | []]]; auto.
    + intros k.
      destruct (device.get_address client (log ++ [GetPublicNode n None]) n
                  (str "Bitcoin") true); cbn [fst]; [|discriminate].
      intros H. injection H as <-. auto.
Qed.

End SignIdentityAll.

(** X15: a signing request leaves [sign_identity] only when an expected
    address was given and equals the address computed from the public node
    the device returned for the key path of the label; the request carries
    the parsed identity, the 64 bytes of [_urandom] as hidden and the
    timestamp of [_strftime] as visual challenge. *)
Theorem sign_identity_signs_only_expected {VerifyingKey : Type}
    (fmt : formats.t VerifyingKey) (btc : bitcoin.t) (client : device.t)
    (label : text) (expected_address : option text)
    (_strftime : text -> text) (_urandom : nat -> bytes)
    (log : list request) (q : request) :
  In q (snd (Client.sign_identity fmt btc client label expected_address
               _strftime _urandom log)) ->
  is_sign_request q = true ->
  In q log
  \/ exists a identity n node,
       reaches_signing fmt btc client label expected_address log a identity n
         node
       /\ q = SignIdentity identity (_urandom 64%nat)
                (_strftime (str "%d/%m/%y %H:%M:%S")) None.
Proof.
  intros Hq Hs.
  destruct (sign_identity_cases fmt btc client label expected_address
              _strftime _urandom log)
    as [(a & identity & n & node & Hr & E) | [Hno _]].
  - rewrite E in Hq. cbn [snd] in Hq. rewrite !in_app_iff in Hq.
    cbn [In] in Hq. destruct Hq as [[Hq | [<- | []]] | [<- | []]].
    + left. exact Hq.
    + discriminate Hs.
    + right. exists a, identity, n, node. auto.
  - destruct (Hno q Hq) as [H | H]; [left; exact H|congruence].
Qed.

Lemma sign_identity_signs_only_expected_witness :
  In (SignIdentity
        {| proto_f := None; user_f := None;
           host_f := Some (str "example.com"); port_f := None;
           path_f := None; index := 0 |}
        (repeat x07 64) (str "now") None) []
  \/ exists a identity n node,
       reaches_signing Sample.fmt Sample.btc (Sample.dev Sample.good)
         (str "example.com") (Some (str "1addr")) [] a identity n node
       /\ SignIdentity
            {| proto_f := None; user_f := None;
               host_f := Some (str "example.com"); port_f := None;
               path_f := None; index := 0 |}
            (repeat x07 64) (str "now") None
          = SignIdentity identity (repeat x07 64) (str "now") None.
Proof.
  apply (sign_identity_signs_only_expected Sample.fmt Sample.btc
           (Sample.dev Sample.good) (str "example.com")
           (Some (str "1addr")) (fun _ => str "now")
           (fun n => repeat x07 n) []).
  - vm_compute. right. left. reflexivity.
  - reflexivity.
Defined.

(** X16: the integrity checks of [sign_identity]: an expected address that
    differs from the computed one raises [AssertionError] before any
    signing request; after signing, an answer whose address or public key
    differs from the computed address or from the key of the public node
    raises [AssertionError], whatever the signature. *)
Theorem sign_identity_integrity {VerifyingKey : Type}
    (fmt : formats.t VerifyingKey) (btc : bitcoin.t) (client : device.t)
    (label : text) (_strftime : text -> text) (_urandom : nat -> bytes)
    (log : list request)
    (identity : Identity) (n : list Z) (node : bytes) (a : text) :
  Client.get_identity label None = Ok identity ->
  _get_address fmt identity = Ok n ->
  device.get_public_node client log n None = Ok node ->
  bitcoin.pubkey_to_address btc node = Ok a ->
  let log1 := log ++ [GetPublicNode n None] in
  let hidden := _urandom 64%nat in
  let visual := _strftime (str "%d/%m/%y %H:%M:%S") in
  (forall expected,
      expected <> a ->
      Client.sign_identity fmt btc client label (Some expected) _strftime
        _urandom log
      = (Raise AssertionError, log1))
  /\ (forall signed,
        device.sign_identity client log1 identity hidden visual None
        = Ok signed ->
        address signed <> a \/ public_key signed <> node ->
        Client.sign_identity fmt btc client label (Some a) _strftime
          _urandom log
        = (Raise AssertionError,
           log1 ++ [SignIdentity identity hidden visual None])).
Proof.
  intros Hi Hn Hno Ha log1 hidden visual. split.
  - intros expected Hne.
    unfold Client.sign_identity, bind, lift, send, ret.
    rewrite Hi, Hn, Hno, Ha, (text_eqb_neq _ _ Hne). reflexivity.
  - intros signed Hs Hbad.
    rewrite (sign_identity_signed fmt btc client label _strftime _urandom
               log identity n node a Hi Hn Hno Ha signed Hs).
    fold log1 hidden visual. f_equal.
    destruct Hbad as [Hbad | Hbad].
    + rewrite (text_eqb_neq a (address signed)) by congruence. reflexivity.
    + destruct (text_eqb a (address signed)); cbn [assert rbind];
        [|reflexivity].
      rewrite (bytes_eqb_neq node (public_key signed)) by congruence.
      reflexivity.
Qed.

Lemma sign_identity_integrity_witness :
  Client.sign_identity Sample.fmt Sample.btc (Sample.dev Sample.good)
    (str "example.com") (Some (str "1other")) (fun _ => str "now")
    (fun n => repeat x07 n) []
  = (Raise AssertionError,
     [GetPublicNode
        [2147483661; 2147483648; 3982588005; 2925882480; 2154655587] None])
  /\ Client.sign_identity Sample.fmt Sample.btc (Sample.dev Sample.wrong_key)
       (str "example.com") (Some (str "1addr")) (fun _ => str "now")
       (fun n => repeat x07 n) []
     = (Raise AssertionError,
        [GetPublicNode
           [2147483661; 2147483648; 3982588005; 2925882480; 2154655587] None;
         SignIdentity
           {| proto_f := None; user_f := None;
              host_f := Some (str "example.com"); port_f := None;
              path_f := None; index := 0 |}
           (repeat x07 64) (str "now") None]).
Proof.
  split.
  - apply (proj1 (sign_identity_integrity Sample.fmt Sample.btc
                    (Sample.dev Sample.good) (str "example.com")
                    (fun _ => str "now") (fun n => repeat x07 n) []
                    _ _ [x01; x02] (str "1addr")
                    eq_refl eq_refl eq_refl eq_refl)).
    discriminate.
  - apply (proj2 (sign_identity_integrity Sample.fmt Sample.btc
                    (Sample.dev Sample.wrong_key) (str "example.com")
                    (fun _ => str "now") (fun n => repeat x07 n) []
                    _ _ [x01; x02] (str "1addr")
                    eq_refl eq_refl eq_refl eq_refl) Sample.wrong_key eq_refl).
    right. discriminate.
Defined.

(** X17: the return codes of [sign_identity] mean what they say: it returns
    2 exactly when no expected address was given, and otherwise 0 or 1,
    where 0 is returned only if the device signed for the expected address
    with the key of the public node and [verify_digest] accepted the
    signature for the digest of the very challenges that were sent, and 1
    only if it raised [BadSignatureError]. *)
Theorem sign_identity_codes {VerifyingKey : Type}
    (fmt : formats.t VerifyingKey) (btc : bitcoin.t) (client : device.t)
    (label : text) (expected_address : option text)
    (_strftime : text -> text) (_urandom : nat -> bytes)
    (log log' : list request) (k : Z) :
  Client.sign_identity fmt btc client label expected_address _strftime
    _urandom log = (Ok k, log') ->
  let hidden := _urandom 64%nat in
  let visual := _strftime (str "%d/%m/%y %H:%M:%S") in
  (expected_address = None /\ k = 2)
  \/ exists a identity n node signed vk,
       reaches_signing fmt btc client label expected_address log a identity n
         node
       /\ log' = log ++ [GetPublicNode n None;
                         SignIdentity identity hidden visual None]
       /\ device.sign_identity client (log ++ [GetPublicNode n None])
            identity hidden visual None = Ok signed
       /\ address signed = a
       /\ public_key signed = node
       /\ formats.decompress_pubkey fmt (public_key signed) (Some SECP256k1)
          = Ok vk
       /\ ((k = 0
            /\ exists u,
                 formats.verify_digest fmt vk
                   (parse_signature (signature signed))
                   (message_digest fmt btc hidden (raw visual)) = Ok u)
           \/ (k = 1
               /\ formats.verify_digest fmt vk
                    (parse_signature (signature signed))
                    (message_digest fmt btc hidden (raw visual))
                  = Raise BadSignatureError)).
Proof.
  intros H hidden visual.
  destruct (sign_identity_cases fmt btc client label expected_address
              _strftime _urandom log)
    as [(a & identity & n & node & Hr & E) | [_ Hk]].
  - right. rewrite E in H. fold hidden visual in H.
    injection H as H <-.
    destruct (device.sign_identity client (log ++ [GetPublicNode n None])
                identity hidden visual None) as [signed|] eqn:Es;
      cbn [rbind] in H; [|discriminate].
    destruct (text_eqb a (address signed)) eqn:Ea; cbn [assert rbind] in H;
      [|discriminate].
    destruct (bytes_eqb node (public_key signed)) eqn:Eb;
      cbn [assert rbind] in H; [|discriminate].
    apply text_eqb_eq in Ea. apply bytes_eqb_eq in Eb.
    destruct (validate_signature_ok_inv _ _ _ _ _ H) as (vk & Hvk & Hcode).
    exists a, identity, n, node, signed, vk.
    rewrite <- app_assoc. cbn [app]. auto 10.
  - left. apply Hk. rewrite H. reflexivity.
Qed.

Lemma sign_identity_codes_witness :
  (Some (str "1addr") = None /\ 1 = 2)
  \/ exists a identity n node signed vk,
       reaches_signing Sample.fmt Sample.btc (Sample.dev Sample.bad_sig)
         (str "example.com") (Some (str "1addr")) [] a identity n node
       /\ [GetPublicNode
             [2147483661; 2147483648; 3982588005; 2925882480; 2154655587]
             None;
           SignIdentity
             {| proto_f := None; user_f := None;
                host_f := Some (str "example.com"); port_f := None;
                path_f := None; index := 0 |}
             (repeat x07 64) (str "now") None]
          = [] ++ [GetPublicNode n None;
                   SignIdentity identity (repeat x07 64) (str "now") None]
       /\ device.sign_identity (Sample.dev Sample.bad_sig)
            ([] ++ [GetPublicNode n None]) identity (repeat x07 64)
            (str "now") None = Ok signed
       /\ address signed = a
       /\ public_key signed = node
       /\ formats.decompress_pubkey Sample.fmt (public_key signed)
            (Some SECP256k1) = Ok vk
       /\ ((1 = 0
            /\ exists u,
                 formats.verify_digest Sample.fmt vk
                   (parse_signature (signature signed))
                   (message_digest Sample.fmt Sample.btc (repeat x07 64)
                      (raw (str "now"))) = Ok u)
           \/ (1 = 1
               /\ formats.verify_digest Sample.fmt vk
                    (parse_signature (signature signed))
                    (message_digest Sample.fmt Sample.btc (repeat x07 64)
                       (raw (str "now")))
                  = Raise BadSignatureError)).
Proof.
  apply (sign_identity_codes Sample.fmt Sample.btc (Sample.dev Sample.bad_sig)
           (str "example.com") (Some (str "1addr")) (fun _ => str "now")
           (fun n => repeat x07 n) []).
  reflexivity.
Defined.

(** ** The SSH blob codec: what an accepted blob is *)

Lemma recv_inv (n : nat) (d a b : bytes) :
  util.recv n d = Ok (a, b) -> d = a ++ b /\ List.length a = n.
Proof.
  unfold util.recv, read.
  destruct (n <=? List.length d)%nat eqn:E; [|discriminate].
  apply Nat.leb_le in E. intros H. injection H as <- <-.
  split; [symmetry; apply firstn_skipn|].
  rewrite length_firstn. lia.
Qed.

Lemma byte_of_Z_mod (x : Z) (b : byte) :
  x mod 256 = byte_val b -> byte_of_Z x = b.
Proof.
  intros H. unfold byte_of_Z. rewrite H. unfold byte_val.
  rewrite N2Z.id, Byte.of_to_N. reflexivity.
Qed.

Lemma be4_bytes2num (h : bytes) :
  List.length h = 4%nat ->
  be4 (util.bytes2num h) = h /\ 0 <= util.bytes2num h < 2 ^ 32.
Proof.
  destruct h as [|a [|b [|c [|d [|x h]]]]]; try discriminate. intros _.
  unfold util.bytes2num, be4. cbn [fold_left].
  pose proof (byte_val_range a) as Ha. pose proof (byte_val_range b) as Hb.
  pose proof (byte_val_range c) as Hc. pose proof (byte_val_range d) as Hd.
  set (A := byte_val a) in *. set (B := byte_val b) in *.
  set (C := byte_val c) in *. set (D := byte_val d) in *.
  change (2 ^ 8) with 256. change (2 ^ 16) with 65536.
  change (2 ^ 24) with 16777216. change (2 ^ 32) with 4294967296.
  set (n := (((0 * 256 + A) * 256 + B) * 256 + C) * 256 + D).
  assert (E3 : n / 16777216 = A)
    by (symmetry; apply (Z.div_unique n 16777216 A (n - A * 16777216));
        unfold n; lia).
  assert (E2 : n / 65536 = A * 256 + B)
    by (symmetry;
        apply (Z.div_unique n 65536 (A * 256 + B)
                 (n - (A * 256 + B) * 65536));
        unfold n; lia).
  assert (E1 : n / 256 = (A * 256 + B) * 256 + C)
    by (symmetry;
        apply (Z.div_unique n 256 ((A * 256 + B) * 256 + C) D);
        unfold n; lia).
  split; [|unfold n; lia].
  rewrite E3, E2, E1.
  f_equal; [|f_equal; [|f_equal; [|f_equal]]]; apply byte_of_Z_mod.
  - apply Z.mod_small. exact Ha.
  - symmetry. apply (Z.mod_unique _ 256 A B); lia.
  - symmetry. apply (Z.mod_unique _ 256 (A * 256 + B) C); lia.
  - symmetry.
    apply (Z.mod_unique n 256 ((A * 256 + B) * 256 + C) D); unfold n; lia.
Qed.

(** A frame that was read is what the buffer starts with. *)
Lemma read_frame_inv (d p rest : bytes) :
  util.read_frame d = Ok (p, rest) -> d = frame p ++ rest /\ fits p.
Proof.
  unfold util.read_frame.
  destruct (util.recv 4 d) as [[h d1]|] eqn:E1; cbn [rbind fst snd];
    [|discriminate].
  intros E2. apply recv_inv in E1. destruct E1 as [-> Hh].
  apply recv_inv in E2. destruct E2 as [-> Hp].
  destruct (be4_bytes2num h Hh) as [Hbe Hrange].
  assert (Hn : Z.of_nat (List.length p) = util.bytes2num h)
    by (rewrite Hp; apply Z2Nat.id; lia).
  unfold frame, fits. rewrite Hn, Hbe, <- app_assoc. split; [reflexivity|lia].
Qed.

Lemma read_frame_marker (d p rest : bytes) :
  util.read_frame (snd (read 1 d)) = Ok (p, rest) ->
  exists m, d = [m] ++ frame p ++ rest /\ fits p.
Proof.
  destruct d as [|m d]; [discriminate|].
  cbn [read snd skipn]. intros H. apply read_frame_inv in H.
  destruct H as [-> Hp]. exists m. auto.
Qed.

(** X18: an accepted blob is the empty blob, with the empty dictionary, or
    the exact framing of its fields: six length-prefixed frames with one
    reserved byte after the nonce and one after the method, nothing more;
    the dictionary holds the six keys, the first five frames as they are
    and, for the key, what [formats.parse_pubkey] made of the sixth.
    ([util.read_frame] is modelled from the spec.) *)
Theorem parse_ssh_blob_inv {VerifyingKey : Type}
    (fmt : formats.t VerifyingKey) (data : bytes) (res : dict) :
  _parse_ssh_blob fmt data = Ok res ->
  (data = [] /\ res = [])
  \/ exists nonce m1 user_ conn auth m2 key_type pk k,
       data = challenge nonce m1 user_ conn auth m2 key_type pk
       /\ fits nonce /\ fits user_ /\ fits conn /\ fits auth
       /\ fits key_type /\ fits pk
       /\ formats.parse_pubkey fmt pk = Ok k
       /\ res = [("nonce"%string, VBytes nonce);
                 ("user"%string, VBytes user_);
                 ("conn"%string, VBytes conn);
                 ("auth"%string, VBytes auth);
                 ("key_type"%string, VBytes key_type);
                 ("public_key"%string, VKey k)].
Proof.
  unfold _parse_ssh_blob. destruct data as [|b0 d0].
  { intros H. injection H as <-. left. auto. }
  remember (b0 :: d0) as data eqn:Hd. clear Hd b0 d0. intros H. right.
  destruct (util.read_frame data) as [[nonce r1]|] eqn:E1;
    cbn [rbind fst snd] in H; [|discriminate].
  destruct (util.read_frame (snd (read 1 r1))) as [[user_ r2]|] eqn:E2;
    cbn [rbind fst snd] in H; [|discriminate].
  destruct (util.read_frame r2) as [[conn r3]|] eqn:E3;
    cbn [rbind fst snd] in H; [|discriminate].
  destruct (util.read_frame r3) as [[auth r4]|] eqn:E4;
    cbn [rbind fst snd] in H; [|discriminate].
  destruct (util.read_frame (snd (read 1 r4))) as [[key_type r5]|] eqn:E5;
    cbn [rbind fst snd] in H; [|discriminate].
  destruct (util.read_frame r5) as [[pk r6]|] eqn:E6;
    cbn [rbind fst snd] in H; [|discriminate].
  destruct (formats.parse_pubkey fmt pk) as [k|] eqn:Ek;
    cbn [rbind] in H; [|discriminate].
  destruct r6 as [|x r6]; cbn in H; [|discriminate].
  injection H as <-.
  apply read_frame_inv in E1, E3, E4, E6.
  apply read_frame_marker in E2, E5.
  destruct E1 as [-> F1]. destruct E2 as (m1 & -> & F2).
  destruct E3 as [-> F3]. destruct E4 as [-> F4].
  destruct E5 as (m2 & -> & F5). destruct E6 as [-> F6].
  exists nonce, m1, user_, conn, auth, m2, key_type, pk, k.
  unfold challenge. rewrite app_nil_r. cbn [app]. auto 12.
Qed.

Lemma parse_ssh_blob_inv_witness :
  (Sample.login = []
   /\ [("nonce"%string, VBytes [x0a]); ("user"%string, VBytes [x61]);
       ("conn"%string, VBytes [x63]); ("auth"%string, VBytes [x70]);
       ("key_type"%string, VBytes [x6b]);
       ("public_key"%string, VKey Sample.key)] = [])
  \/ exists nonce m1 user_ conn auth m2 key_type pk k,
       Sample.login = challenge nonce m1 user_ conn auth m2 key_type pk
       /\ fits nonce /\ fits user_ /\ fits conn /\ fits auth
       /\ fits key_type /\ fits pk
       /\ formats.parse_pubkey Sample.fmt pk = Ok k
       /\ [("nonce"%string, VBytes [x0a]); ("user"%string, VBytes [x61]);
           ("conn"%string, VBytes [x63]); ("auth"%string, VBytes [x70]);
           ("key_type"%string, VBytes [x6b]);
           ("public_key"%string, VKey Sample.key)]
          = [("nonce"%string, VBytes nonce);
             ("user"%string, VBytes user_);
             ("conn"%string, VBytes conn);
             ("auth"%string, VBytes auth);
             ("key_type"%string, VBytes key_type);
             ("public_key"%string, VKey k)].
Proof.
  apply (parse_ssh_blob_inv Sample.fmt Sample.login). reflexivity.
Defined.

(** X19: the parsed challenge holds all six keys or none: after a blob that
    is not empty was accepted, [msg['user']] and
    [msg['public_key']['blob']] cannot fail, and the claimed key blob is the
    one of the key [formats.parse_pubkey] returned. *)
Theorem parse_ssh_blob_keys {VerifyingKey : Type}
    (fmt : formats.t VerifyingKey) (data : bytes) (msg : dict) :
  data <> [] ->
  _parse_ssh_blob fmt data = Ok msg ->
  (forall key,
      In key ["nonce"; "user"; "conn"; "auth"; "key_type"]%string ->
      exists b, getitem key msg = Ok (VBytes b))
  /\ exists k, getitem "public_key" msg = Ok (VKey k)
               /\ rbind (getitem "public_key" msg) key_blob = Ok (blob k).
Proof.
  intros Hd. unfold _parse_ssh_blob. destruct data as [|b0 d0];
    [contradiction|].
  destruct (util.read_frame (b0 :: d0)) as [[nonce r1]|];
    cbn [rbind fst snd]; [|discriminate].
  destruct (util.read_frame (snd (read 1 r1))) as [[user_ r2]|];
    cbn [rbind fst snd]; [|discriminate].
  destruct (util.read_frame r2) as [[conn r3]|];
    cbn [rbind fst snd]; [|discriminate].
  destruct (util.read_frame r3) as [[auth r4]|];
    cbn [rbind fst snd]; [|discriminate].
  destruct (util.read_frame (snd (read 1 r4))) as [[key_type r5]|];
    cbn [rbind fst snd]; [|discriminate].
  destruct (util.read_frame r5) as [[pk r6]|];
    cbn [rbind fst snd]; [|discriminate].
  destruct (formats.parse_pubkey fmt pk) as [k|]; cbn [rbind];
    [|discriminate].
  destruct (assert (negb (truthy (fst (read_all r6))))); cbn [rbind];
    [|discriminate].
  intros H. injection H as <-. split.
  - intros key Hk. cbn [In] in Hk.
    destruct Hk as [<- | [<- | [<- | [<- | [<- | []]]]]];
      eexists; reflexivity.
  - exists k. split; reflexivity.
Qed.

Lemma parse_ssh_blob_keys_witness :
  (forall key,
      In key ["nonce"; "user"; "conn"; "auth"; "key_type"]%string ->
      exists b,
        getitem key
          [("nonce"%string, VBytes [x0a]); ("user"%string, VBytes [x61]);
           ("conn"%string, VBytes [x63]); ("auth"%string, VBytes [x70]);
           ("key_type"%string, VBytes [x6b]);
           ("public_key"%string, VKey Sample.key)] = Ok (VBytes b))
  /\ exists k,
       getitem "public_key"
         [("nonce"%string, VBytes [x0a]); ("user"%string, VBytes [x61]);
          ("conn"%string, VBytes [x63]); ("auth"%string, VBytes [x70]);
          ("key_type"%string, VBytes [x6b]);
          ("public_key"%string, VKey Sample.key)] = Ok (VKey k)
       /\ rbind (getitem "public_key"
                   [("nonce"%string, VBytes [x0a]);
                    ("user"%string, VBytes [x61]);
                    ("conn"%string, VBytes [x63]);
                    ("auth"%string, VBytes [x70]);
                    ("key_type"%string, VBytes [x6b]);
                    ("public_key"%string, VKey Sample.key)]) key_blob
          = Ok (blob k).
Proof.
  apply (parse_ssh_blob_keys Sample.fmt Sample.login);
    [discriminate|reflexivity].
Defined.

(** ** The key-path deriver: its errors *)

Lemma encode_ascii_fails (s : text) :
  ~ Forall is_ascii s -> encode_ascii s = Raise UnicodeError.
Proof.
  intros H. unfold encode_ascii.
  destruct (forallb (fun c => (nat_of_ascii c <? 128)%nat) s) eqn:E;
    [|reflexivity].
  exfalso. apply H. apply Forall_forall. intros c Hc.
  rewrite forallb_forall in E. apply Nat.ltb_lt, E, Hc.
Qed.

Lemma is_ascii_dec (s : text) : Forall is_ascii s \/ ~ Forall is_ascii s.
Proof.
  destruct (forallb (fun c => (nat_of_ascii c <? 128)%nat) s) eqn:E.
  - left. apply Forall_forall. intros c Hc.
    rewrite forallb_forall in E. apply Nat.ltb_lt, E, Hc.
  - right. intros H. rewrite (proj2 (forallb_forall _ _)) in E;
      [discriminate|].
    intros c Hc. rewrite Forall_forall in H. apply Nat.ltb_lt, H, Hc.
Qed.

(** X20: what [_get_address] refuses: it raises the error of [struct.pack]
    exactly when the index is not an unsigned 32-bit integer, whatever the
    strings, and the error of [encode('ascii')] exactly when the index is
    one and the formatted identity holds a character that is not ASCII. *)
Theorem get_address_errors {VerifyingKey : Type}
    (fmt : formats.t VerifyingKey) (identity : Identity) :
  (_get_address fmt identity = Raise StructError
   <-> ~ 0 <= index identity < 2 ^ 32)
  /\ (_get_address fmt identity = Raise UnicodeError
      <-> 0 <= index identity < 2 ^ 32
          /\ ~ Forall is_ascii (_identity_to_string identity)).
Proof.
  unfold _get_address.
  destruct (Z_le_dec 0 (index identity)) as [H0|H0];
    [destruct (Z_lt_dec (index identity) (2 ^ 32)) as [H1|H1]|].
  - destruct (pack_L_ok (index identity) (conj H0 H1)) as (ib & -> & _ & _).
    cbn [rbind].
    destruct (is_ascii_dec (_identity_to_string identity)) as [Ha|Ha].
    + rewrite (encode_ascii_ok _ Ha). cbn [rbind].
      destruct (util.recv_LLLL _) as [vals|e] eqn:Er; cbn [rbind].
      * split; split; try discriminate; intros; tauto.
      * unfold util.recv_LLLL, util.recv in Er.
        destruct (16 <=? _)%nat in Er; cbn [rbind] in Er;
          [discriminate|]. injection Er as <-.
        split; split; try discriminate; intros; tauto.
    + rewrite (encode_ascii_fails _ Ha). cbn [rbind].
      split; split; try discriminate; intros; tauto.
  - rewrite pack_L_out_of_range by lia. cbn [rbind].
    split; split; try discriminate; intros; try tauto; lia.
  - rewrite pack_L_out_of_range by lia. cbn [rbind].
    split; split; try discriminate; intros; try tauto; lia.
Qed.

Lemma get_address_errors_witness :
  _get_address Sample.fmt
    {| proto_f := None; user_f := None; host_f := Some ["233"%char];
       port_f := None; path_f := None; index := 2 ^ 32 |}
  = Raise StructError.
Proof.
  apply (proj1 (get_address_errors Sample.fmt _)). cbn [index]. lia.
Defined.

(** ** The signature processor: no two signatures are confused *)

Lemma byte_val_inj (a b : byte) : byte_val a = byte_val b -> a = b.
Proof.
  intros H. rewrite <- (byte_of_Z_mod (byte_val a) a), H.
  - apply byte_of_Z_mod. apply Z.mod_small, byte_val_range.
  - apply Z.mod_small, byte_val_range.
Qed.

Lemma be_value_inj (s1 s2 : bytes) :
  List.length s1 = List.length s2 -> be_value s1 = be_value s2 -> s1 = s2.
Proof.
  revert s2. induction s1 as [|a s1 IH]; intros [|b s2] Hl Hv;
    try discriminate Hl; [reflexivity|].
  cbn [List.length] in Hl. injection Hl as Hl.
  cbn [be_value] in Hv. rewrite Hl in Hv.
  pose proof (be_value_range s1) as R1. pose proof (be_value_range s2) as R2.
  rewrite Hl in R1.
  pose proof (byte_val_range a) as Ra. pose proof (byte_val_range b) as Rb.
  set (P := 256 ^ Z.of_nat (List.length s2)) in *.
  assert (Eab : byte_val a = byte_val b) by nia.
  rewrite Eab in Hv.
  rewrite (byte_val_inj a b Eab), (IH s2 Hl); [reflexivity|lia].
Qed.

(** X22: on blobs of 65 bytes [parse_signature] loses nothing but byte 0:
    two blobs with the same [(r, s)] are equal from byte 1 on.
    ([util.bytes2num] is modelled from the spec.) *)
Theorem parse_signature_injective (b1 b2 : bytes) :
  List.length b1 = 65%nat ->
  List.length b2 = 65%nat ->
  parse_signature b1 = parse_signature b2 ->
  skipn 1 b1 = skipn 1 b2.
Proof.
  intros L1 L2. unfold parse_signature. rewrite !bytes2num_be_value.
  intros H. injection H as Hr Hs.
  rewrite <- (firstn_skipn 32 (skipn 1 b1)), <- (firstn_skipn 32 (skipn 1 b2)).
  f_equal; apply be_value_inj; try assumption;
    rewrite ?length_firstn, ?length_skipn; lia.
Qed.

Lemma parse_signature_injective_witness :
  skipn 1 (signature Sample.good) = skipn 1 (x1b :: Sample.zeros 64).
Proof.
  apply (parse_signature_injective (signature Sample.good)
           (x1b :: Sample.zeros 64));
    reflexivity.
Defined.
